(** * Verification of [sentence_corrector.py]

    A shallow embedding of the [SentenceCorrector] class: the word-list
    loader, the training-corpus tokenizer and frequency filter, the
    nearest-word search and the sentence corrector.

    Python values are modelled as follows.
    - [str] is a sequence of Unicode code points: [list N].
    - [int] is [Z] for frequencies; distances and lengths, which are never
      negative, are [nat].
    - a [dict] whose iteration order is observable ([buf_dictionary],
      [dictionary], [train_dict]) is an insertion-ordered association list;
      [dict_full], which is only ever asked for membership, is a [gmap].
    - an operation that can raise ([d[k]], [max] of an empty list) returns
      [option], [None] standing for the exception. *)

From Stdlib Require Import ZArith NArith Lia String Ascii.
From stdpp Require Import ssreflect base option list gmap.

#[local] Set Warnings "-rewrite-rw".
Local Open Scope nat_scope.

(** ** Python strings *)

Module PyStr.

Abbreviation codepoint := N (only parsing).
Abbreviation pystr := (list N) (only parsing).

(** *** Literals

    The source file is UTF-8; a literal is written as a Rocq string (a byte
    sequence) and decoded to code points. *)

Fixpoint utf8_decode (bs : list N) : pystr :=
  match bs with
  | [] => []
  | b0 :: r0 =>
    if (b0 <? 128)%N then b0 :: utf8_decode r0
    else match r0 with
    | [] => []
    | b1 :: r1 =>
      if (b0 <? 224)%N then
        ((b0 mod 32) * 64 + b1 mod 64)%N :: utf8_decode r1
      else match r1 with
      | [] => []
      | b2 :: r2 =>
        if (b0 <? 240)%N then
          ((b0 mod 16) * 4096 + (b1 mod 64) * 64 + b2 mod 64)%N
            :: utf8_decode r2
        else match r2 with
        | [] => []
        | b3 :: r3 =>
          ((b0 mod 8) * 262144 + (b1 mod 64) * 4096
             + (b2 mod 64) * 64 + b3 mod 64)%N :: utf8_decode r3
        end
      end
    end
  end.

Definition u (s : string) : pystr :=
  utf8_decode (List.map N_of_ascii (list_ascii_of_string s)).

(** *** [str.isspace] on one character

    CPython's [_PyUnicode_IsWhitespace]: the code points whose bidirectional
    class is WS, B or S, or whose category is Zs. *)

Definition isspace (c : codepoint) : bool :=
  ((9 <=? c) && (c <=? 13) || (28 <=? c) && (c <=? 32)
   || (c =? 133) || (c =? 160) || (c =? 5760)
   || (8192 <=? c) && (c <=? 8202)
   || (c =? 8232) || (c =? 8233) || (c =? 8239) || (c =? 8287)
   || (c =? 12288))%N.

(** *** [str.strip()], [str.startswith], slicing *)

Fixpoint lstrip (s : pystr) : pystr :=
  match s with
  | [] => []
  | c :: s' => if isspace c then lstrip s' else s
  end.

Definition rstrip (s : pystr) : pystr := reverse (lstrip (reverse s)).

Definition strip (s : pystr) : pystr := rstrip (lstrip s).

Definition startswith (s p : pystr) : bool :=
  bool_decide (take (length p) s = p).

(** [s[1:]] *)
Definition slice_from_1 (s : pystr) : pystr := drop 1 s.

(** *** [str.split()] with no argument

    Leading whitespace is skipped, a word runs up to the next whitespace
    character, and no empty word is produced.  [cur] holds the characters
    of the word being read, last one first. *)

Fixpoint split_from (cur : pystr) (s : pystr) : list pystr :=
  match s with
  | [] => match cur with [] => [] | _ => [reverse cur] end
  | c :: s' =>
    if isspace c then
      match cur with
      | [] => split_from [] s'
      | _ => reverse cur :: split_from [] s'
      end
    else split_from (c :: cur) s'
  end.

Definition split (s : pystr) : list pystr := split_from [] s.

(** *** [sep.join(words)] *)

Fixpoint join (sep : pystr) (ws : list pystr) : pystr :=
  match ws with
  | [] => []
  | [w] => w
  | w :: ws' => w ++ sep ++ join sep ws'
  end.

(** *** [str.lower]

    The functions below take [str.lower] as a parameter.  Where a concrete
    run is needed, [lower_basic] is used: Unicode's lower-case mapping on
    Basic Latin and on the Cyrillic capitals U+0400..U+042F, the identity
    on every other code point. *)

Definition lower_char_basic (c : codepoint) : codepoint :=
  (if (65 <=? c) && (c <=? 90) then c + 32
   else if (1040 <=? c) && (c <=? 1071) then c + 32
   else if (1024 <=? c) && (c <=? 1039) then c + 80
   else c)%N.

Definition lower_basic (s : pystr) : pystr := List.map lower_char_basic s.

End PyStr.

Import PyStr.

(** ** The [Levenshtein] package

    [Levenshtein.distance] is an external library function.  It is modelled
    by the textbook recurrence on the two strings, and shown below to be
    the least number of single-character insertions, deletions and
    substitutions that turn one string into the other. *)

Module Levenshtein.

Fixpoint distance (s t : pystr) : nat :=
  match s with
  | [] => length t
  | a :: s' =>
    (fix row (t : pystr) : nat :=
       match t with
       | [] => length s
       | b :: t' =>
         S (distance s' t) `min`
         (S (row t') `min`
          (distance s' t' + if decide (a = b) then 0 else 1))
       end) t
  end.

(** An edit script of cost [n] from [s] to [t]: keeping a character is
    free, every substitution, deletion and insertion costs one. *)
Inductive edits : pystr -> pystr -> nat -> Prop :=
  | edits_nil : edits [] [] 0
  | edits_keep a s t n : edits s t n -> edits (a :: s) (a :: t) n
  | edits_subst a b s t n : edits s t n -> edits (a :: s) (b :: t) (S n)
  | edits_delete a s t n : edits s t n -> edits (a :: s) t (S n)
  | edits_insert b s t n : edits s t n -> edits s (b :: t) (S n).

End Levenshtein.

(** ** Character classes of [re]

    A bracketed class is a sequence of items, each a literal character or a
    range [lo-hi]; a character matches the class when it matches one of the
    items. *)

Module Re.

Inductive class_item : Type :=
  | Lit (c : codepoint)
  | Range (lo hi : codepoint).

Definition item_matches (c : codepoint) (i : class_item) : bool :=
  match i with
  | Lit c' => (c =? c')%N
  | Range lo hi => ((lo <=? c) && (c <=? hi))%N
  end.

Definition class_matches (cls : list class_item) (c : codepoint) : bool :=
  existsb (item_matches c) cls.

(** The largest character an item matches. *)
Definition item_upper (i : class_item) : codepoint :=
  match i with
  | Lit c' => c'
  | Range lo hi => hi
  end.

(** [re.sub('[...]', repl, s)] for a pattern that is one class: every
    character that matches is replaced by [repl]. *)
Definition sub_class (cls : list class_item) (repl s : pystr) : pystr :=
  flat_map (fun c => if class_matches cls c then repl else [c]) s.

End Re.

(** ** Insertion-ordered dictionaries *)

Module PyDict.

Section Dict.
Context {V : Type}.

Abbreviation dict := (list (pystr * V)) (only parsing).

(** Iterating over a dict yields its keys in insertion order. *)
Definition keys (d : dict) : list pystr := d.*1.

(** [d.get(k)], [None] when [k] is absent. *)
Fixpoint get (d : dict) (k : pystr) : option V :=
  match d with
  | [] => None
  | (k', v) :: d' => if decide (k = k') then Some v else get d' k
  end.

(** [d[k]]; [None] here is Python's [KeyError]. *)
Definition getitem (d : dict) (k : pystr) : option V := get d k.

(** [k in d] *)
Definition contains (d : dict) (k : pystr) : bool :=
  match get d k with Some _ => true | None => false end.

(** [d[k] = v]: an existing key keeps its position, a new one goes last. *)
Fixpoint set (d : dict) (k : pystr) (v : V) : dict :=
  match d with
  | [] => [(k, v)]
  | (k', v') :: d' =>
    if decide (k = k') then (k, v) :: d' else (k', v') :: set d' k v
  end.

(** [d.pop(k, None)], the popped value being discarded. *)
Fixpoint pop (d : dict) (k : pystr) : dict :=
  match d with
  | [] => []
  | (k', v') :: d' =>
    if decide (k = k') then d' else (k', v') :: pop d' k
  end.

(** A list of entries is a dict when no key occurs twice. *)
Definition wf (d : dict) : Prop := NoDup (keys d).

End Dict.

(** [max(l, key=f)]: the first element whose key is the largest.  [best]
    and [bestv] are the running maximum and its key.  [None] is an
    exception: [ValueError] on an empty list, or whatever [f] raises. *)
Fixpoint max_from {A} (f : A -> option Z) (best : A) (bestv : Z)
    (l : list A) : option A :=
  match l with
  | [] => Some best
  | x :: l' =>
    v ← f x;
    if (bestv <? v)%Z then max_from f x v l' else max_from f best bestv l'
  end.

Definition max_by {A} (f : A -> option Z) (l : list A) : option A :=
  match l with
  | [] => None
  | x :: l' => v ← f x; max_from f x v l'
  end.

End PyDict.

(** ** The class [SentenceCorrector] *)

Module SentenceCorrector.

(** The instance attributes set by [__init__]. *)
Record t : Type := {
  dict_full : gmap (list N) Z;
  train_dict : list (pystr * Z);
  sonority : list (pystr * pystr)
}.

(** The table assigned to [self.sonority]. *)
Definition sonority_table : list (pystr * pystr) :=
  [(u "б", u "п"); (u "в", u "ф"); (u "г", u "к"); (u "д", u "т");
   (u "ж", u "ш"); (u "з", u "с"); (u "п", u "б"); (u "ф", u "в");
   (u "к", u "г"); (u "т", u "д"); (u "ш", u "ж"); (u "с", u "з")].

(** *** [_load_russian_dictionary]

    [lines] are the lines of the file as the file iterator yields them,
    line terminator included. *)

Definition load_line (dict_full : gmap (list N) Z) (line : pystr)
    : gmap (list N) Z :=
  let word := strip line in
  if startswith word (u "-") then <[slice_from_1 word := 1%Z]> dict_full
  else <[word := 1%Z]> dict_full.

Definition _load_russian_dictionary (lines : list pystr)
    : gmap (list N) Z :=
  foldl load_line ∅ lines.

(** *** The pattern handed to [re.sub]

    A single bracketed class.  Read item by item: the ten digits and the
    twenty-six small Latin letters, then [!], [@], [#], then [$--], which
    is the range from [$] (36) to [-] (45), then [,], [.], [?], the not sign,
    and the four escaped characters: closing bracket (93), opening bracket
    (91), apostrophe (39) and double quote (34). *)
Definition noise_class : list Re.class_item :=
  List.map Re.Lit (u "1234567890qwertyuiopasdfghjklzxcvbnm!@#")
  ++ [Re.Range 36 45]
  ++ List.map Re.Lit (u ",.?¬")
  ++ [Re.Lit 93; Re.Lit 91; Re.Lit 39; Re.Lit 34].

Section WithLower.

(** [str.lower] *)
Variable lower : pystr -> pystr.

(** [re.sub('[...]', ' ', s.lower()).split()], as both
    [_process_training_data] and [correct_sentence] compute it. *)
Definition tokenize (s : pystr) : list pystr :=
  split (Re.sub_class noise_class (u " ") (lower s)).

(** *** [_process_training_data] *)

(** [buf_dictionary[word] = buf_dictionary.get(word, 0) + 1] *)
Definition count_word (buf_dictionary : list (pystr * Z)) (word : pystr)
    : list (pystr * Z) :=
  PyDict.set buf_dictionary word
    (default 0%Z (PyDict.get buf_dictionary word) + 1)%Z.

(** The first loop, over the column [train_correct]. *)
Definition count_corpus (train_correct : list pystr) : list (pystr * Z) :=
  foldl (fun buf string => foldl count_word buf (tokenize string))
        [] train_correct.

End WithLower.

Definition critical : Z := 5.

(** The condition of the [if] in the filtering loop, with Python's
    short-circuit evaluation of [and] and [or]. *)
Definition filter_test (dict_full : gmap (list N) Z)
    (buf_dictionary : list (pystr * Z)) (word : pystr) : option bool :=
  left_disjunct ←
    (if bool_decide (dict_full !! word = None) then
       c ← PyDict.getitem buf_dictionary word; Some (c <? critical)%Z
     else Some false);
  if left_disjunct : bool then Some true
  else if length word <? 4 then
    c ← PyDict.getitem buf_dictionary word;
    if (c <? 50)%Z then Some (bool_decide (dict_full !! word = None))
    else Some false
  else Some false.

(** The filtering loop: [words] are the keys of [buf_dictionary] still to
    be visited, [dictionary] the copy being pruned. *)
Fixpoint filter_loop (dict_full : gmap (list N) Z)
    (buf_dictionary : list (pystr * Z)) (words : list pystr)
    (dictionary : list (pystr * Z)) : option (list (pystr * Z)) :=
  match words with
  | [] => Some dictionary
  | word :: rest =>
    b ← filter_test dict_full buf_dictionary word;
    filter_loop dict_full buf_dictionary rest
      (if b : bool then PyDict.pop dictionary word else dictionary)
  end.

(** Everything after the first loop: copy, filter, add the sentinel. *)
Definition filter_dictionary (dict_full : gmap (list N) Z)
    (buf_dictionary : list (pystr * Z)) : option (list (pystr * Z)) :=
  dictionary ← filter_loop dict_full buf_dictionary
                  (PyDict.keys buf_dictionary) buf_dictionary;
  Some (PyDict.set dictionary [] 1%Z).

Definition _process_training_data (lower : pystr -> pystr)
    (dict_full : gmap (list N) Z) (train_correct : list pystr)
    : option (list (pystr * Z)) :=
  filter_dictionary dict_full (count_corpus lower train_correct).

(** *** [__init__] *)

Definition __init__ (lower : pystr -> pystr)
    (lines train_correct : list pystr) : option t :=
  let dict_full := _load_russian_dictionary lines in
  train_dict ← _process_training_data lower dict_full train_correct;
  Some {| dict_full := dict_full; train_dict := train_dict;
          sonority := sonority_table |}.

(** *** [_levenshtein_distance] *)

Definition _levenshtein_distance (self : t) (word1 word2 : pystr) : nat :=
  Levenshtein.distance word1 word2.

(** *** [_find_closest_word] *)

(** One round of the search loop.  [min_dist] is [None] while it still is
    [float('inf')], which every distance is below. *)
Definition closest_step (self : t) (word : pystr)
    (st : option nat * list pystr) (dict_word : pystr)
    : option nat * list pystr :=
  let '(min_dist, closest_words) := st in
  let dist := _levenshtein_distance self word dict_word in
  match min_dist with
  | None => (Some dist, [dict_word])
  | Some m =>
    if dist <? m then (Some dist, [dict_word])
    else if dist =? m then (min_dist, closest_words ++ [dict_word])
    else st
  end.

Definition _find_closest_word (self : t) (word : pystr) : option pystr :=
  if PyDict.contains (train_dict self) word then Some word
  else
    let '(_, closest_words) :=
      foldl (closest_step self word) (None, [])
            (PyDict.keys (train_dict self)) in
    match closest_words with
    | [] => Some word
    | _ => PyDict.max_by (fun x => PyDict.getitem (train_dict self) x)
                         closest_words
    end.

(** *** [correct_sentence] *)

(** The loop over [words]; [corrected_words] is the list built so far. *)
Fixpoint correct_words (self : t) (words corrected_words : list pystr)
    : option (list pystr) :=
  match words with
  | [] => Some corrected_words
  | word :: rest =>
    if PyDict.contains (train_dict self) word then
      correct_words self rest (corrected_words ++ [word])
    else
      corrected_word ← _find_closest_word self word;
      correct_words self rest (corrected_words ++ [corrected_word])
  end.

Definition correct_sentence (lower : pystr -> pystr) (self : t)
    (sentence : pystr) : option pystr :=
  let words := tokenize lower sentence in
  corrected_words ← correct_words self words [];
  Some (join (u " ") corrected_words).

End SentenceCorrector.

(** ** The specification's wording

    Definitions that follow the prose of the specification, for comparison
    with the code above. *)

Module Spec.

(** The retention rule: when a token [w] with count [c] is dropped. *)
Definition drops (dict_full : gmap (list N) Z) (w : pystr) (c : Z) : Prop :=
  (dict_full !! w = None ∧ (c < 5)%Z)
  ∨ (length w < 4 ∧ (c < 50)%Z ∧ dict_full !! w = None).

#[global] Instance drops_dec dict_full w c : Decision (drops dict_full w c).
Proof. unfold drops. apply _. Defined.

(** The entries that survive the filter. *)
Definition kept (dict_full : gmap (list N) Z) (e : list N * Z) : Prop :=
  ¬ drops dict_full e.1 e.2.

(** The noise class as the specification lists it: the ASCII digits, the
    small ASCII Latin letters, and thirteen punctuation characters:
    exclamation mark, at sign, number sign, dollar sign, hyphen, comma,
    full stop, question mark, not sign, the two square brackets,
    apostrophe and double quote. *)
Definition is_noise (c : codepoint) : bool :=
  ((48 <=? c) && (c <=? 57) || (97 <=? c) && (c <=? 122))%N
  || bool_decide
       (c ∈ [33; 64; 35; 36; 45; 44; 46; 63; 172; 93; 91; 39; 34]%N).

(** Tokenization with that class: lower-case, put a space for every noise
    character, split on whitespace. *)
Definition tokenize (lower : pystr -> pystr) (s : pystr) : list pystr :=
  split (flat_map (fun c => if is_noise c then u " " else [c]) (lower s)).

(** The six characters of the range from dollar sign to hyphen that the
    specification's list does not name: percent sign, ampersand, the two
    parentheses, asterisk and plus sign. *)
Definition range_extras : list N := [37; 38; 40; 41; 42; 43]%N.

(** The word-list loader as the specification words it: only the end of
    the line is trimmed. *)
Definition load_line (dict_full : gmap (list N) Z) (line : pystr)
    : gmap (list N) Z :=
  let word := rstrip line in
  if startswith word (u "-") then <[slice_from_1 word := 1%Z]> dict_full
  else <[word := 1%Z]> dict_full.

End Spec.

(** ** Sample correctors *)

Module Sample.

(** The lexicon of the specification's tie-break example. *)
Definition good_bad : SentenceCorrector.t :=
  {| SentenceCorrector.dict_full := ∅;
     SentenceCorrector.train_dict := [(u "хорошо", 10%Z); (u "плохо", 5%Z)];
     SentenceCorrector.sonority := SentenceCorrector.sonority_table |}.

(** The same corrector with an empty sonority table. *)
Definition good_bad_mute : SentenceCorrector.t :=
  {| SentenceCorrector.dict_full := ∅;
     SentenceCorrector.train_dict := [(u "хорошо", 10%Z); (u "плохо", 5%Z)];
     SentenceCorrector.sonority := [] |}.

(** The frequency table of the specification's filtering example. *)
Definition furniture : list (pystr * Z) :=
  [(u "стол", 3%Z); (u "окно", 60%Z); (u "дом", 5%Z)].

(** The corrector built from an empty word list and a corpus of five
    one-word sentences. *)
Definition greeting : SentenceCorrector.t :=
  {| SentenceCorrector.dict_full := ∅;
     SentenceCorrector.train_dict := [(u "привет", 5%Z); ([], 1%Z)];
     SentenceCorrector.sonority := SentenceCorrector.sonority_table |}.

(** A corrector whose lexicon has the seven words of the specification's
    sample sentence, once each. *)
Definition small_talk : SentenceCorrector.t :=
  {| SentenceCorrector.dict_full := ∅;
     SentenceCorrector.train_dict :=
       [(u "привет", 1%Z); (u "как", 1%Z); (u "дела", 1%Z); (u "у", 1%Z);
        (u "меня", 1%Z); (u "всё", 1%Z); (u "хорошо", 1%Z)];
     SentenceCorrector.sonority := SentenceCorrector.sonority_table |}.

End Sample.

(** ** Loop invariants *)

Module Invariant.

(** What holds of the frequency table while the corpus is being counted:
    no key twice, no empty key, every count positive. *)
Definition counted (buf : list (pystr * Z)) : Prop :=
  PyDict.wf buf ∧ ([] ∉ PyDict.keys buf)
  ∧ (∀ w c, PyDict.get buf w = Some c → (0 < c)%Z).

(** What the search loop for [word] holds after the keys [ks]: nothing
    yet, or the least distance seen and, in their order, the keys at that
    distance. *)
Definition searched (word : pystr) (ks : list pystr)
    (st : option nat * list pystr) : Prop :=
  match st.1 with
  | None => ks = [] ∧ st.2 = []
  | Some m =>
    (∃ k, k ∈ ks ∧ Levenshtein.distance word k = m)
    ∧ (∀ k, k ∈ ks → m ≤ Levenshtein.distance word k)
    ∧ st.2 = filter (fun k => Levenshtein.distance word k = m) ks
  end.

End Invariant.

(** ** The command line: [main] *)

Module Main.

(** What [parser.parse_args()] returns: [--text] is a string or [None],
    [--interactive] a flag. *)
Record args : Type := {
  text : option pystr;
  interactive : bool
}.

(** What a call of [input] meets: a line that the user typed, or
    Ctrl-C, which raises [KeyboardInterrupt].  When no event is left the
    input is at its end and [input] raises [EOFError]. *)
Inductive event : Type :=
  | Line (text : pystr)
  | Interrupt.

(** What the program writes: the prompt of [input], without a line end,
    or a line of [print]. *)
Inductive output : Type :=
  | Prompt (s : pystr)
  | Print (s : pystr).

(** How [main] ends: it returns, or [EOFError] leaves it uncaught. *)
Inductive status : Type :=
  | Returned
  | EOFError.

(** Python's truth value of a string, and of [args.text], which may be
    [None]. *)
Definition truthy (s : pystr) : bool :=
  match s with [] => false | _ => true end.

Definition banner : pystr :=
  u "Введите текст для исправления (для выхода введите 'выход' или 'exit'):".

Definition original_label : pystr := u "Исходное предложение: ".
Definition corrected_label : pystr := u "Исправленное предложение: ".
Definition goodbye : pystr := [10%N] ++ u "Программа завершена".

(** The [while True] loop; [printed] is what has been written so far. *)
Fixpoint interactive_loop (lower : pystr -> pystr)
    (corrector : SentenceCorrector.t) (inputs : list event)
    (printed : list output) : option (list output * status) :=
  match inputs with
  | [] => Some (printed ++ [Prompt (u "> ")], EOFError)
  | Interrupt :: _ =>
    Some (printed ++ [Prompt (u "> "); Print goodbye], Returned)
  | Line text :: rest =>
    let printed := printed ++ [Prompt (u "> ")] in
    if bool_decide (lower text ∈ [u "выход"; u "exit"]) then
      Some (printed, Returned)
    else if truthy (strip text) then
      corrected ← SentenceCorrector.correct_sentence lower corrector text;
      interactive_loop lower corrector rest
        (printed ++ [Print (corrected_label ++ corrected)])
    else interactive_loop lower corrector rest printed
  end.

Definition test_sentence : pystr := u "Привет, как дела? У меня всё харашо!".

(** The five lines of usage that the default mode prints last. *)
Definition usage : list output :=
  [Print ([10%N] ++ u "Для использования программы:");
   Print (u "1. Передайте текст через аргумент --text или -t:");
   Print (u "   python sentence_corrector.py --text 'Ваш текст здесь'");
   Print (u "2. Или запустите в интерактивном режиме:");
   Print (u "   python sentence_corrector.py --interactive")].

(** [main], given the lines of the word list and the column of the
    training set that the constructor reads, the parsed arguments and what
    the calls of [input] will meet. *)
Definition main (lower : pystr -> pystr) (lines train_correct : list pystr)
    (a : args) (inputs : list event) : option (list output * status) :=
  corrector ← SentenceCorrector.__init__ lower lines train_correct;
  if truthy (default [] (text a)) then
    corrected ← SentenceCorrector.correct_sentence lower corrector
                  (default [] (text a));
    Some ([Print (original_label ++ default [] (text a));
           Print (corrected_label ++ corrected)], Returned)
  else if interactive a then
    interactive_loop lower corrector inputs [Print banner]
  else
    corrected ← SentenceCorrector.correct_sentence lower corrector
                  test_sentence;
    Some ([Print (original_label ++ test_sentence);
           Print (corrected_label ++ corrected)] ++ usage, Returned).

End Main.

(** ** Notions used to state what the code computes *)

Module Derived.

(** The key that one line of the word list is stored under. *)
Definition stored_word (line : pystr) : pystr :=
  match strip line with
  | 45%N :: rest => rest
  | word => word
  end.

(** All tokens of the corpus, in reading order. *)
Definition corpus_tokens (lower : pystr -> pystr)
    (train_correct : list pystr) : list pystr :=
  train_correct ≫= SentenceCorrector.tokenize lower.

(** How often [w] occurs in [ws]. *)
Definition occurrences (w : pystr) (ws : list pystr) : Z :=
  Z.of_nat (length (filter (fun x => x = w) ws)).

(** The distinct elements of [ws], each where it occurs first. *)
Fixpoint first_occurrences (seen ws : list pystr) : list pystr :=
  match ws with
  | [] => []
  | w :: ws' =>
    if bool_decide (w ∈ seen) then first_occurrences seen ws'
    else w :: first_occurrences (w :: seen) ws'
  end.

(** A character that can be part of a token: neither whitespace nor
    matched by the pattern. *)
Definition token_char (c : codepoint) : Prop :=
  isspace c = false ∧ Re.class_matches SentenceCorrector.noise_class c = false.

(** What the interactive loop writes for one line that is not an exit
    word: the prompt, and the corrected sentence unless the line is
    blank. *)
Definition line_output (lower : pystr -> pystr)
    (corrector : SentenceCorrector.t) (text : pystr) : list Main.output :=
  Main.Prompt (u "> ")
  :: (if Main.truthy (strip text) then
        [Main.Print
           (Main.corrected_label
            ++ default []
                 (SentenceCorrector.correct_sentence lower corrector text))]
      else []).

(** The line makes the interactive loop stop. *)
Definition exit_word (lower : pystr -> pystr) (text : pystr) : Prop :=
  lower text = u "выход" ∨ lower text = u "exit".

End Derived.

(** ** Further sample data *)

Module Cases.

(** The corrector that construction builds from an empty corpus and an
    empty word list. *)
Definition blank : SentenceCorrector.t :=
  {| SentenceCorrector.dict_full := ∅;
     SentenceCorrector.train_dict := [([], 1%Z)];
     SentenceCorrector.sonority := SentenceCorrector.sonority_table |}.

(** Command-line arguments that select the interactive mode. *)
Definition interactive_args : Main.args :=
  {| Main.text := None; Main.interactive := true |}.

(** Command-line arguments that pass a text. *)
Definition text_args : Main.args :=
  {| Main.text := Some (u "Привет мир"); Main.interactive := true |}.

End Cases.

(** ** Correction as the specification words it *)

Module Worded.

(** What becomes of one token: kept when it is a key of the lexicon,
    replaced by the resolver's result otherwise. *)
Definition resolve_token (self : SentenceCorrector.t) (tok : pystr)
    : option pystr :=
  if PyDict.contains (SentenceCorrector.train_dict self) tok then Some tok
  else SentenceCorrector._find_closest_word self tok.

(** [correct]: tokenize with the listed noise class, treat every token in
    order, join the results by single spaces. *)
Definition correct (lower : pystr -> pystr) (self : SentenceCorrector.t)
    (sentence : pystr) : option pystr :=
  rs ← mapM (resolve_token self) (Spec.tokenize lower sentence);
  Some (join (u " ") rs).

(** A corrector whose lexicon has two words and the sentinel. *)
Definition friends : SentenceCorrector.t :=
  {| SentenceCorrector.dict_full := ∅;
     SentenceCorrector.train_dict :=
       [(u "привет", 5%Z); (u "друг", 5%Z); ([], 1%Z)];
     SentenceCorrector.sonority := SentenceCorrector.sonority_table |}.

End Worded.

(** * Properties *)

(** ** Strings *)

Section StrFacts.

Lemma lstrip_spec (s : pystr) :
  ∃ ws, s = ws ++ lstrip s ∧ Forall (fun c => isspace c = true) ws
        ∧ ∀ c, head (lstrip s) = Some c → isspace c = false.
Proof.
  induction s as [|c s IH]; simpl.
  - exists []. split_and!; [done | constructor | done].
  - destruct (isspace c) eqn:Hc.
    + destruct IH as (ws & Hs & Hws & Hhd).
      exists (c :: ws). split_and!; [by rewrite {1}Hs | by constructor | done].
    + exists []. split_and!; [done | constructor |].
      intros c' [= <-]. done.
Qed.

Lemma lstrip_snoc_nonspace (s : pystr) (c : N) :
  isspace c = false → lstrip (s ++ [c]) = lstrip s ++ [c].
Proof.
  intros Hc. induction s as [|a s IH]; simpl.
  - by rewrite Hc.
  - destruct (isspace a); done.
Qed.

Lemma rstrip_spec (s : pystr) :
  ∃ ws, s = rstrip s ++ ws ∧ Forall (fun c => isspace c = true) ws
        ∧ ∀ c, last (rstrip s) = Some c → isspace c = false.
Proof.
  unfold rstrip.
  destruct (lstrip_spec (reverse s)) as (ws & Hs & Hws & Hhd).
  exists (reverse ws). split_and!.
  - rewrite -reverse_app -Hs. by rewrite reverse_involutive.
  - by apply Forall_reverse.
  - intros c. rewrite last_reverse. apply Hhd.
Qed.

Lemma rstrip_keeps_head (s : pystr) (c : N) :
  head s = Some c → isspace c = false → head (rstrip s) = Some c.
Proof.
  destruct s as [|a s]; [done|]. intros [= ->] Hc.
  unfold rstrip. rewrite reverse_cons lstrip_snoc_nonspace //.
  by rewrite reverse_snoc.
Qed.

(** [strip] removes the whitespace at both ends and nothing else. *)
Lemma strip_spec (s : pystr) :
  ∃ ws1 ws2, s = ws1 ++ strip s ++ ws2
    ∧ Forall (fun c => isspace c = true) ws1
    ∧ Forall (fun c => isspace c = true) ws2
    ∧ (∀ c, head (strip s) = Some c → isspace c = false)
    ∧ (∀ c, last (strip s) = Some c → isspace c = false).
Proof.
  unfold strip.
  destruct (lstrip_spec s) as (ws1 & Hs1 & Hws1 & Hhd).
  destruct (rstrip_spec (lstrip s)) as (ws2 & Hs2 & Hws2 & Hlast).
  exists ws1, ws2. split_and!; try done.
  - by rewrite -Hs2.
  - intros c Hc. destruct (lstrip s) as [|a t] eqn:Ht.
    + done.
    + assert (isspace a = false) as Ha by by apply Hhd.
      rewrite (rstrip_keeps_head (a :: t) a) // in Hc. by injection Hc as <-.
Qed.

(** No word that [split] yields is empty or contains whitespace. *)
Lemma split_from_words (cur s : pystr) :
  Forall (fun c => isspace c = false) cur →
  Forall (fun w => w ≠ [] ∧ Forall (fun c => isspace c = false) w)
         (split_from cur s).
Proof.
  revert cur. induction s as [|c s IH]; intros cur Hcur; simpl.
  - destruct cur as [|a cur]; [constructor|].
    constructor; [|constructor]. split.
    + rewrite reverse_cons. by destruct (reverse cur).
    + by apply Forall_reverse.
  - destruct (isspace c) eqn:Hc.
    + destruct cur as [|a cur]; [by apply IH|].
      constructor; [|by apply IH]. split.
      * rewrite reverse_cons. by destruct (reverse cur).
      * by apply Forall_reverse.
    + apply IH. by constructor.
Qed.

Lemma split_words (s : pystr) :
  Forall (fun w => w ≠ [] ∧ Forall (fun c => isspace c = false) w) (split s).
Proof. apply split_from_words. constructor. Qed.

Lemma split_from_word (cur w rest : pystr) :
  Forall (fun c => isspace c = false) w →
  split_from cur (w ++ rest) = split_from (reverse w ++ cur) rest.
Proof.
  intros Hw. revert cur. induction Hw as [|c w Hc _ IH]; intros cur.
  - done.
  - simpl. rewrite Hc IH reverse_cons -app_assoc //.
Qed.

(** Splitting undoes joining by single spaces. *)
Lemma split_join (ws : list pystr) :
  Forall (fun w => w ≠ [] ∧ Forall (fun c => isspace c = false) w) ws →
  split (join (u " ") ws) = ws.
Proof.
  unfold split. induction 1 as [|w ws [Hne Hw] Hws IH]; [done|].
  assert (reverse w ≠ []) as Hrev.
  { intros Hnil. apply (f_equal reverse) in Hnil.
    by rewrite reverse_involutive in Hnil. }
  destruct ws as [|w' ws].
  - simpl. rewrite -{1}(app_nil_r w) split_from_word // app_nil_r /=.
    destruct (reverse w) eqn:E; [done|]. by rewrite -E reverse_involutive.
  - change (join (u " ") (w :: w' :: ws))
      with (w ++ 32%N :: join (u " ") (w' :: ws)).
    rewrite split_from_word // app_nil_r.
    change (split_from (reverse w) (32%N :: join (u " ") (w' :: ws)))
      with (match reverse w with
            | [] => split_from [] (join (u " ") (w' :: ws))
            | _ => reverse (reverse w)
                     :: split_from [] (join (u " ") (w' :: ws))
            end).
    destruct (reverse w) eqn:E; [done|].
    by rewrite -E reverse_involutive IH.
Qed.

End StrFacts.

(** ** Edit distance *)

Section DistanceFacts.
Import Levenshtein.

Lemma distance_nil_l (t : pystr) : distance [] t = length t.
Proof. done. Qed.

Lemma distance_nil_r (s : pystr) : distance s [] = length s.
Proof. by destruct s. Qed.

Lemma distance_cons_cons (a b : N) (s t : pystr) :
  distance (a :: s) (b :: t) =
    S (distance s (b :: t)) `min`
    (S (distance (a :: s) t) `min`
     (distance s t + if decide (a = b) then 0 else 1)).
Proof. done. Qed.

(** The recurrence is reached by an edit script ... *)
Lemma distance_achieved (s t : pystr) : edits s t (distance s t).
Proof.
  revert t. induction s as [|a s IHs]; intros t.
  - rewrite distance_nil_l. induction t as [|b t IHt]; simpl.
    + constructor.
    + by constructor.
  - induction t as [|b t IHt].
    + rewrite distance_nil_r. simpl. apply edits_delete.
      specialize (IHs []). by rewrite distance_nil_r in IHs.
    + rewrite distance_cons_cons.
      set (d1 := S (distance s (b :: t))).
      set (d2 := S (distance (a :: s) t)).
      set (d3 := distance s t + if decide (a = b) then 0 else 1).
      assert (edits (a :: s) (b :: t) d1) by (apply edits_delete, IHs).
      assert (edits (a :: s) (b :: t) d2) by (apply edits_insert, IHt).
      assert (edits (a :: s) (b :: t) d3).
      { subst d3. destruct (decide (a = b)) as [->|].
        - rewrite Nat.add_0_r. apply edits_keep, IHs.
        - rewrite Nat.add_1_r. apply edits_subst, IHs. }
      destruct (Nat.min_spec d2 d3) as [[_ ->]|[_ ->]];
        destruct (Nat.min_spec d1 d2) as [[_ E1]|[_ E1]];
        destruct (Nat.min_spec d1 d3) as [[_ E2]|[_ E2]];
        rewrite ?E1 ?E2; done.
Qed.

(** ... and no edit script is cheaper. *)
Lemma distance_minimal (s t : pystr) (n : nat) :
  edits s t n → distance s t ≤ n.
Proof.
  induction 1 as [|a s t n _ IH|a b s t n _ IH|a s t n _ IH|b s t n _ IH].
  - done.
  - rewrite distance_cons_cons. rewrite decide_True //. lia.
  - rewrite distance_cons_cons. destruct (decide (a = b)); lia.
  - destruct t as [|b t].
    + rewrite distance_nil_r in IH. rewrite distance_nil_r. simpl. lia.
    + rewrite distance_cons_cons. lia.
  - destruct s as [|a s].
    + rewrite distance_nil_l in IH. rewrite distance_nil_l. simpl. lia.
    + rewrite distance_cons_cons. lia.
Qed.

Lemma distance_diag (s : pystr) : distance s s = 0.
Proof.
  assert (edits s s 0) as H by (induction s; by constructor).
  apply distance_minimal in H. lia.
Qed.

End DistanceFacts.

(** ** Lists *)

Section ListFacts.
Context {A : Type} (P : A → Prop) `{!∀ x, Decision (P x)}.

Lemma filter_none (l : list A) : Forall (fun x => ¬ P x) l → filter P l = [].
Proof.
  induction 1 as [|x l Hx _ IH]; [done|]. by rewrite filter_cons_False.
Qed.

(** An element of a filtered list, with what is before and after it,
    sits in the original list with what is before and after it there. *)
Lemma filter_eq_app_cons (l l1 l2 : list A) (r : A) :
  filter P l = l1 ++ r :: l2 →
  ∃ k1 k2, l = k1 ++ r :: k2 ∧ filter P k1 = l1 ∧ filter P k2 = l2.
Proof.
  revert l1. induction l as [|x l IH]; intros l1 Hf.
  - rewrite filter_nil in Hf. by destruct l1.
  - rewrite filter_cons in Hf. destruct (decide (P x)) as [Hx|Hx].
    + destruct l1 as [|y l1]; simpl in Hf; injection Hf as <- Hf.
      * exists [], l. by rewrite filter_nil.
      * destruct (IH _ Hf) as (k1 & k2 & -> & <- & <-).
        exists (x :: k1), k2. by rewrite filter_cons_True.
    + destruct (IH _ Hf) as (k1 & k2 & -> & <- & <-).
      exists (x :: k1), k2. by rewrite filter_cons_False.
Qed.

End ListFacts.

(** ** Dictionaries *)

Section DictFacts.
Context {V : Type}.
Implicit Types (d : list (list N * V)) (k : list N) (v : V).

Lemma get_Some_keys d k v : PyDict.get d k = Some v → k ∈ PyDict.keys d.
Proof.
  induction d as [|[k' v'] d IH]; simpl; [done|].
  destruct (decide (k = k')) as [->|]; intros H.
  - apply list_elem_of_here.
  - apply list_elem_of_further, IH, H.
Qed.

Lemma keys_get d k : k ∈ PyDict.keys d → is_Some (PyDict.get d k).
Proof.
  induction d as [|[k' v'] d IH]; simpl.
  - by intros ?%elem_of_nil.
  - intros [->|H]%elem_of_cons.
    + rewrite decide_True //.
    + destruct (decide (k = k')); [done | by apply IH].
Qed.

Lemma get_None_keys d k : PyDict.get d k = None ↔ k ∉ PyDict.keys d.
Proof.
  split.
  - intros H Hin. apply keys_get in Hin as [v Hv]. congruence.
  - intros H. destruct (PyDict.get d k) eqn:E; [|done].
    by apply get_Some_keys in E.
Qed.

Lemma contains_keys d k : PyDict.contains d k = true ↔ k ∈ PyDict.keys d.
Proof.
  unfold PyDict.contains. split.
  - destruct (PyDict.get d k) eqn:E; [|done]. intros _.
    by eapply get_Some_keys.
  - intros [v ->]%keys_get. done.
Qed.

Lemma not_contains_keys d k :
  PyDict.contains d k = false ↔ k ∉ PyDict.keys d.
Proof.
  rewrite -contains_keys. by destruct (PyDict.contains d k).
Qed.

Lemma get_set d k v k' :
  PyDict.get (PyDict.set d k v) k' =
    if decide (k' = k) then Some v else PyDict.get d k'.
Proof.
  induction d as [|[k0 v0] d IH]; simpl.
  - done.
  - destruct (decide (k = k0)) as [->|Hne]; simpl.
    + destruct (decide (k' = k0)); done.
    + rewrite IH. destruct (decide (k' = k0)) as [->|]; [|done].
      rewrite decide_False //.
Qed.

Lemma elem_of_keys_set d k v k' :
  k' ∈ PyDict.keys (PyDict.set d k v) ↔ k' = k ∨ k' ∈ PyDict.keys d.
Proof.
  induction d as [|[k0 v0] d IH]; simpl.
  - rewrite elem_of_cons. set_solver.
  - destruct (decide (k = k0)) as [->|Hne]; simpl.
    + rewrite !elem_of_cons. tauto.
    + rewrite !elem_of_cons IH. tauto.
Qed.

Lemma wf_set d k v : PyDict.wf d → PyDict.wf (PyDict.set d k v).
Proof.
  unfold PyDict.wf. induction d as [|[k0 v0] d IH]; simpl.
  - intros _. apply NoDup_singleton.
  - rewrite NoDup_cons. intros [Hk0 Hd].
    destruct (decide (k = k0)) as [->|Hne]; simpl.
    + by apply NoDup_cons.
    + apply NoDup_cons. split; [|by apply IH].
      change (k0 ∉ PyDict.keys (PyDict.set d k v)).
      rewrite elem_of_keys_set. intros [?|?]; done.
Qed.

Lemma get_app_notin d1 d2 k :
  k ∉ PyDict.keys d1 → PyDict.get (d1 ++ d2) k = PyDict.get d2 k.
Proof.
  induction d1 as [|[k0 v0] d1 IH]; simpl; [done|].
  rewrite not_elem_of_cons. intros [Hne Hk].
  rewrite decide_False //. by apply IH.
Qed.

Lemma pop_app_notin d1 d2 k :
  k ∉ PyDict.keys d1 → PyDict.pop (d1 ++ d2) k = d1 ++ PyDict.pop d2 k.
Proof.
  induction d1 as [|[k0 v0] d1 IH]; simpl; [done|].
  rewrite not_elem_of_cons. intros [Hne Hk].
  rewrite decide_False //. by rewrite IH.
Qed.

Lemma keys_filter_subseteq (P : list N * V → Prop) `{!∀ e, Decision (P e)} d k :
  k ∈ PyDict.keys (filter P d) → k ∈ PyDict.keys d.
Proof.
  unfold PyDict.keys. rewrite !list_elem_of_fmap.
  intros (e & -> & He). exists e. split; [done|].
  by apply list_elem_of_filter in He as [_ ?].
Qed.

Lemma wf_filter (P : list N * V → Prop) `{!∀ e, Decision (P e)} d :
  PyDict.wf d → PyDict.wf (filter P d).
Proof.
  unfold PyDict.wf. induction d as [|[k0 v0] d IH]; simpl; [done|].
  rewrite NoDup_cons. intros [Hk0 Hd]. rewrite filter_cons.
  destruct (decide (P (k0, v0))); [|by apply IH].
  simpl. apply NoDup_cons. split; [|by apply IH].
  intros Hin. by apply keys_filter_subseteq in Hin.
Qed.

(** Filtering a dict keeps the entry of a key exactly when the entry
    passes the test. *)
Lemma get_filter (P : list N * V → Prop) `{!∀ e, Decision (P e)} d k :
  PyDict.wf d →
  PyDict.get (filter P d) k =
    match PyDict.get d k with
    | Some v => if decide (P (k, v)) then Some v else None
    | None => None
    end.
Proof.
  unfold PyDict.wf. induction d as [|[k0 v0] d IH]; simpl; [done|].
  rewrite NoDup_cons. intros [Hk0 Hd]. rewrite filter_cons.
  destruct (decide (k = k0)) as [->|Hne].
  - destruct (decide (P (k0, v0))); simpl.
    + rewrite decide_True //.
    + apply get_None_keys. intros Hin.
      by apply keys_filter_subseteq in Hin.
  - destruct (decide (P (k0, v0))); simpl.
    + rewrite decide_False //. by apply IH.
    + by apply IH.
Qed.

End DictFacts.

(** ** The frequency filter *)

Section FilterFacts.
Import SentenceCorrector.
Implicit Types (dict_full : gmap (list N) Z) (buf : list (list N * Z)).

Lemma filter_test_spec dict_full buf w c :
  PyDict.get buf w = Some c →
  filter_test dict_full buf w = Some (bool_decide (Spec.drops dict_full w c)).
Proof.
  intros Hc. unfold filter_test, PyDict.getitem, Spec.drops, critical.
  rewrite Hc /=.
  destruct (decide (dict_full !! w = None)) as [Hdf|Hdf].
  - rewrite (bool_decide_eq_true_2 _ Hdf) /=.
    destruct (Z.ltb_spec c 5) as [H5|H5]; simpl.
    + f_equal. symmetry. apply bool_decide_eq_true_2. by left.
    + destruct (Nat.ltb_spec (length w) 4) as [H4|H4].
      * destruct (Z.ltb_spec c 50) as [H50|H50]; f_equal; symmetry.
        -- apply bool_decide_eq_true_2. by right.
        -- apply bool_decide_eq_false_2. lia.
      * f_equal. symmetry. apply bool_decide_eq_false_2. lia.
  - rewrite (bool_decide_eq_false_2 _ Hdf) /=.
    destruct (Nat.ltb_spec (length w) 4) as [H4|H4].
    + destruct (Z.ltb_spec c 50) as [H50|H50]; f_equal; symmetry;
        apply bool_decide_eq_false_2; tauto.
    + f_equal. symmetry. apply bool_decide_eq_false_2. tauto.
Qed.

(** The loop, started anywhere: [done] are the entries already visited,
    [todo] those still to come. *)
Lemma filter_loop_from dict_full buf (visited todo : list (list N * Z)) :
  PyDict.wf buf → buf = visited ++ todo →
  filter_loop dict_full buf (PyDict.keys todo)
      (filter (Spec.kept dict_full) visited ++ todo)
    = Some (filter (Spec.kept dict_full) buf).
Proof.
  intros Hwf. revert visited.
  induction todo as [|[w c] todo IH]; intros visited Hbuf.
  - simpl. by rewrite Hbuf !app_nil_r.
  - assert (w ∉ PyDict.keys visited) as Hw.
    { unfold PyDict.wf, PyDict.keys in *. rewrite Hbuf fmap_app in Hwf.
      apply NoDup_app in Hwf as (_ & Hdisj & _). intros Hin.
      apply (Hdisj w Hin). simpl. apply list_elem_of_here. }
    assert (PyDict.get buf w = Some c) as Hget.
    { rewrite Hbuf get_app_notin //=. rewrite decide_True //. }
    simpl. rewrite (filter_test_spec _ _ _ c) //=.
    specialize (IH (visited ++ [(w, c)])).
    rewrite filter_app -!app_assoc in IH.
    specialize (IH Hbuf). rewrite -IH. f_equal.
    rewrite filter_cons filter_nil.
    destruct (decide (Spec.kept dict_full (w, c))) as [Hk|Hk];
      unfold Spec.kept in Hk; simpl in Hk.
    + rewrite bool_decide_eq_false_2 //.
    + apply dec_stable in Hk. rewrite bool_decide_eq_true_2 //.
      rewrite pop_app_notin.
      * simpl. rewrite decide_True //.
      * intros Hin. by apply keys_filter_subseteq in Hin.
Qed.

(** The filtering loop keeps, in their order, the entries the retention
    rule does not drop. *)
Lemma filter_loop_spec dict_full buf :
  PyDict.wf buf →
  filter_loop dict_full buf (PyDict.keys buf) buf
    = Some (filter (Spec.kept dict_full) buf).
Proof.
  intros Hwf. by apply (filter_loop_from dict_full buf [] buf).
Qed.

(** Without assuming anything of the entries, the loop still ends
    normally: every key it looks up is there. *)
Lemma filter_loop_total dict_full buf (words : list (list N))
    (dictionary : list (list N * Z)) :
  (∀ w, w ∈ words → w ∈ PyDict.keys buf) →
  is_Some (filter_loop dict_full buf words dictionary).
Proof.
  revert dictionary. induction words as [|w words IH]; intros d Hin; simpl.
  - done.
  - destruct (keys_get buf w) as [c Hc]; [apply Hin, list_elem_of_here|].
    rewrite (filter_test_spec _ _ _ c) //=. apply IH.
    intros w' ?. by apply Hin, list_elem_of_further.
Qed.

End FilterFacts.

(** ** The frequency table *)

Section CountFacts.
Import SentenceCorrector.
Variable lower : list N → list N.
Local Abbreviation counted := Invariant.counted.

Lemma tokenize_nonempty (s : list N) : Forall (fun w => w ≠ []) (tokenize lower s).
Proof.
  unfold tokenize. eapply Forall_impl; [apply split_words|].
  by intros w [? _].
Qed.

Lemma count_word_counted buf w :
  w ≠ [] → counted buf → counted (count_word buf w).
Proof.
  intros Hw (Hwf & Hne & Hpos). unfold count_word. split_and!.
  - by apply wf_set.
  - rewrite elem_of_keys_set. intros [?|?]; done.
  - intros w' c'. rewrite get_set.
    destruct (decide (w' = w)) as [->|]; [|by apply Hpos].
    intros [= <-]. destruct (PyDict.get buf w) as [c|] eqn:E; simpl; [|lia].
    apply Hpos in E. lia.
Qed.

Lemma count_words_counted buf (words : list (list N)) :
  Forall (fun w => w ≠ []) words → counted buf →
  counted (foldl count_word buf words).
Proof.
  revert buf. induction words as [|w words IH]; intros buf Hws Hbuf; simpl.
  - done.
  - apply Forall_cons in Hws as [Hw Hws].
    by apply IH, count_word_counted.
Qed.

Lemma count_corpus_counted (train_correct : list (list N)) :
  counted (count_corpus lower train_correct).
Proof.
  unfold count_corpus.
  assert (counted []) as H0.
  { split_and!; [apply NoDup_nil_2 | apply not_elem_of_nil | done]. }
  revert H0. generalize ([] : list (list N * Z)) as buf.
  induction train_correct as [|s rest IH]; intros buf Hbuf; simpl.
  - done.
  - apply IH, count_words_counted; [apply tokenize_nonempty | done].
Qed.

(** The lexicon that construction builds: every token of the corpus that
    the retention rule keeps, with its count, and the sentinel. *)
Lemma process_training_data_spec (dict_full : gmap (list N) Z)
    (train_correct : list (list N)) :
  ∃ lexicon,
    _process_training_data lower dict_full train_correct = Some lexicon
    ∧ ∀ w, w ≠ [] →
        PyDict.get lexicon w =
          match PyDict.get (count_corpus lower train_correct) w with
          | Some c => if decide (Spec.drops dict_full w c) then None
                      else Some c
          | None => None
          end.
Proof.
  unfold _process_training_data, filter_dictionary.
  destruct (count_corpus_counted train_correct) as (Hwf & _).
  rewrite filter_loop_spec //. eexists. split; [done|].
  intros w Hw. rewrite get_set decide_False // get_filter //.
  destruct (PyDict.get _ w) as [c|]; [|done]. unfold Spec.kept. simpl.
  destruct (decide (Spec.drops dict_full w c)).
  - rewrite decide_False //. tauto.
  - rewrite decide_True //.
Qed.

End CountFacts.

(** ** The nearest-word search *)

Section SearchFacts.
Import SentenceCorrector.
Variable self : SentenceCorrector.t.
Variable word : list N.

Local Abbreviation dist := (Levenshtein.distance word).
Local Abbreviation searched := (Invariant.searched word).

Lemma closest_step_searched ks st k :
  searched ks st → searched (ks ++ [k]) (closest_step self word st k).
Proof.
  destruct st as [[m|] cw]; unfold Invariant.searched, closest_step,
    _levenshtein_distance; simpl.
  - intros ((k0 & Hk0 & Hd0) & Hmin & ->).
    destruct (Nat.ltb_spec (dist k) m) as [Hlt|Hge]; simpl.
    + split_and!.
      * exists k. split; [set_solver | done].
      * intros k' [Hk'|Hk']%elem_of_app.
        -- apply Hmin in Hk'. lia.
        -- by apply list_elem_of_singleton in Hk' as ->.
      * rewrite filter_app filter_cons_True // filter_nil.
        rewrite filter_none //.
        apply Forall_forall. intros k' Hk'%Hmin. lia.
    + destruct (Nat.eqb_spec (dist k) m) as [Heq|Hne]; simpl.
      * split_and!.
        -- exists k0. split; [set_solver | done].
        -- intros k' [Hk'|Hk']%elem_of_app; [by apply Hmin|].
           apply list_elem_of_singleton in Hk' as ->. lia.
        -- rewrite filter_app filter_cons_True //.
      * split_and!.
        -- exists k0. split; [set_solver | done].
        -- intros k' [Hk'|Hk']%elem_of_app; [by apply Hmin|].
           apply list_elem_of_singleton in Hk' as ->. lia.
        -- rewrite filter_app filter_cons_False // filter_nil app_nil_r //.
  - intros [-> ->]. simpl. split_and!.
    + exists k. split; [set_solver | done].
    + by intros k' ->%list_elem_of_singleton.
    + rewrite filter_cons_True //.
Qed.

Lemma closest_loop_searched (ks : list (list N)) :
  searched ks (foldl (closest_step self word) (None, []) ks).
Proof.
  induction ks as [|k ks IH] using rev_ind.
  - by split.
  - rewrite foldl_snoc. by apply closest_step_searched.
Qed.

End SearchFacts.

(** ** [max] with a key *)

Section MaxFacts.
Context {A : Type} (f : A → option Z) (g : A → Z).

(** [p] is what [max] has already seen, [best] its first largest. *)
Lemma max_from_spec (l p : list A) (best : A) :
  (∀ x, x ∈ l → f x = Some (g x)) →
  (∃ p1 p2, p = p1 ++ best :: p2
            ∧ Forall (fun x => (g x < g best)%Z) p1
            ∧ Forall (fun x => (g x ≤ g best)%Z) p2) →
  ∃ r l1 l2, PyDict.max_from f best (g best) l = Some r
             ∧ p ++ l = l1 ++ r :: l2
             ∧ Forall (fun x => (g x < g r)%Z) l1
             ∧ Forall (fun x => (g x ≤ g r)%Z) l2.
Proof.
  revert p best. induction l as [|x l IH]; intros p best Hf Hp.
  - destruct Hp as (p1 & p2 & -> & H1 & H2).
    exists best, p1, p2. by rewrite app_nil_r.
  - simpl. rewrite (Hf x (list_elem_of_here x l)) /=.
    assert (∀ y, y ∈ l → f y = Some (g y)) as Hf'.
    { intros y ?. by apply Hf, list_elem_of_further. }
    destruct Hp as (p1 & p2 & -> & H1 & H2).
    destruct (Z.ltb_spec (g best) (g x)) as [Hlt|Hge].
    + destruct (IH ((p1 ++ best :: p2) ++ [x]) x Hf') as (r & l1 & l2 & Hr).
      * exists (p1 ++ best :: p2), []. split_and!; [done| |constructor].
        apply Forall_app. split.
        -- eapply Forall_impl; [exact H1|]. simpl. lia.
        -- constructor; [done|].
           eapply Forall_impl; [exact H2|]. simpl. lia.
      * exists r, l1, l2. by rewrite -app_assoc in Hr.
    + destruct (IH ((p1 ++ best :: p2) ++ [x]) best Hf') as (r & l1 & l2 & Hr).
      * exists p1, (p2 ++ [x]). split_and!; [by rewrite -app_assoc|done|].
        apply Forall_app. split; [done|]. by repeat constructor.
      * exists r, l1, l2. by rewrite -app_assoc in Hr.
Qed.

(** [max] returns the first of the elements whose key is the largest. *)
Lemma max_by_spec (l : list A) :
  l ≠ [] → (∀ x, x ∈ l → f x = Some (g x)) →
  ∃ r l1 l2, PyDict.max_by f l = Some r ∧ l = l1 ++ r :: l2
             ∧ Forall (fun x => (g x < g r)%Z) l1
             ∧ Forall (fun x => (g x ≤ g r)%Z) l2.
Proof.
  destruct l as [|x l]; [done|]. intros _ Hf. simpl.
  rewrite (Hf x (list_elem_of_here x l)) /=.
  apply (max_from_spec l [x] x).
  - intros y ?. by apply Hf, list_elem_of_further.
  - exists [], []. by split_and!.
Qed.

End MaxFacts.

(** ** [_find_closest_word] and [correct_sentence] *)

Section ResolveFacts.
Import SentenceCorrector.
Implicit Types (self : SentenceCorrector.t) (word : list N).

Lemma find_closest_word_key self word :
  PyDict.contains (train_dict self) word = true →
  _find_closest_word self word = Some word.
Proof. unfold _find_closest_word. by intros ->. Qed.

Lemma find_closest_word_empty self word :
  train_dict self = [] → _find_closest_word self word = Some word.
Proof. unfold _find_closest_word. by intros ->. Qed.

(** The full account of the search for a token that is not a key: the
    result [r] is a key at the least distance; of the keys at that distance
    those before it are strictly less frequent, those after it are not
    more frequent. *)
Lemma find_closest_word_spec self word :
  train_dict self ≠ [] →
  PyDict.contains (train_dict self) word = false →
  ∃ r k1 k2 fr,
    _find_closest_word self word = Some r
    ∧ PyDict.keys (train_dict self) = k1 ++ r :: k2
    ∧ PyDict.get (train_dict self) r = Some fr
    ∧ (∀ k, k ∈ PyDict.keys (train_dict self) →
         Levenshtein.distance word r ≤ Levenshtein.distance word k)
    ∧ (∀ k fk, k ∈ k1 →
         Levenshtein.distance word k = Levenshtein.distance word r →
         PyDict.get (train_dict self) k = Some fk → (fk < fr)%Z)
    ∧ (∀ k fk, k ∈ k2 →
         Levenshtein.distance word k = Levenshtein.distance word r →
         PyDict.get (train_dict self) k = Some fk → (fk ≤ fr)%Z).
Proof.
  intros Hne Hnot. unfold _find_closest_word. rewrite Hnot.
  pose proof (closest_loop_searched self word (PyDict.keys (train_dict self)))
    as Hinv.
  destruct (foldl _ _ _) as [[m|] cw]; unfold Invariant.searched in Hinv;
    simpl in Hinv.
  2: { destruct Hinv as [Hk _]. destruct (train_dict self); done. }
  destruct Hinv as ((k0 & Hk0 & Hd0) & Hmin & ->).
  set (P := fun k => Levenshtein.distance word k = m).
  set (g := fun k => default 0%Z (PyDict.get (train_dict self) k)).
  destruct (max_by_spec (fun x => PyDict.getitem (train_dict self) x) g
              (filter P (PyDict.keys (train_dict self))))
    as (r & l1 & l2 & Hmax & Hsplit & Hl1 & Hl2).
  { intros Hnil. eapply (filter_nil_not_elem_of P); done. }
  { intros x [_ Hx]%list_elem_of_filter. unfold g, PyDict.getitem.
    by destruct (keys_get _ _ Hx) as [v ->]. }
  assert (r ∈ filter P (PyDict.keys (train_dict self))) as Hr.
  { rewrite Hsplit. apply elem_of_app. right. apply list_elem_of_here. }
  apply list_elem_of_filter in Hr as [Hdr Hr]. unfold P in Hdr.
  destruct (keys_get _ _ Hr) as [fr Hfr].
  destruct (filter_eq_app_cons P _ _ _ _ Hsplit) as (k1 & k2 & Hkeys & <- & <-).
  exists r, k1, k2, fr.
  assert (g r = fr) as Hgr by (unfold g; by rewrite Hfr).
  split_and!; try done.
  - destruct (filter P (PyDict.keys (train_dict self))) eqn:E; [|done].
    by destruct (filter P k1).
  - intros k Hk. rewrite Hdr. by apply Hmin.
  - intros k fk Hk Hdk Hfk.
    assert (k ∈ filter P k1) as Hin.
    { apply list_elem_of_filter. split; [|done]. unfold P. congruence. }
    rewrite Forall_forall in Hl1. apply Hl1 in Hin.
    unfold g in Hin. rewrite Hfk Hfr /= in Hin. done.
  - intros k fk Hk Hdk Hfk.
    assert (k ∈ filter P k2) as Hin.
    { apply list_elem_of_filter. split; [|done]. unfold P. congruence. }
    rewrite Forall_forall in Hl2. apply Hl2 in Hin.
    unfold g in Hin. rewrite Hfk Hfr /= in Hin. done.
Qed.

(** The search never raises. *)
Lemma find_closest_word_total self word :
  is_Some (_find_closest_word self word).
Proof.
  destruct (PyDict.contains (train_dict self) word) eqn:Hc.
  - rewrite find_closest_word_key //.
  - destruct (train_dict self) as [|e d] eqn:Hd.
    + rewrite find_closest_word_empty //.
    + destruct (find_closest_word_spec self word) as (r & ? & ? & ? & -> & _);
        [by rewrite Hd | by rewrite Hd | done].
Qed.

(** The loop of [correct_sentence] appends one word for each token. *)
Lemma correct_words_spec self (words acc : list (list N)) :
  ∃ rs, correct_words self words acc = Some (acc ++ rs)
    ∧ Forall2 (fun tok r =>
                 if PyDict.contains (train_dict self) tok then r = tok
                 else _find_closest_word self tok = Some r) words rs.
Proof.
  revert acc. induction words as [|w words IH]; intros acc; simpl.
  - exists []. by rewrite app_nil_r.
  - destruct (PyDict.contains (train_dict self) w) eqn:Hc.
    + destruct (IH (acc ++ [w])) as (rs & -> & Hrs).
      exists (w :: rs). split; [by rewrite -app_assoc|].
      constructor; [by rewrite Hc | done].
    + destruct (find_closest_word_total self w) as [r Hr]. rewrite Hr /=.
      destruct (IH (acc ++ [r])) as (rs & -> & Hrs).
      exists (r :: rs). split; [by rewrite -app_assoc|].
      constructor; [by rewrite Hc | done].
Qed.

(** The sample sentence of [main], on a lexicon that has its words. *)
Example correct_sample_sentence :
  correct_sentence lower_basic Sample.small_talk
    (u "Привет, как дела? У меня всё харашо!")
  = Some (u "привет как дела у меня всё хорошо").
Proof. vm_compute. reflexivity. Qed.

(** Both methods read nothing of [self] but [train_dict]. *)
Lemma find_closest_word_ext (c1 c2 : SentenceCorrector.t) word :
  train_dict c1 = train_dict c2 →
  _find_closest_word c1 word = _find_closest_word c2 word.
Proof. intros Heq. unfold _find_closest_word. by rewrite Heq. Qed.

Lemma correct_words_ext (c1 c2 : SentenceCorrector.t)
    (words acc : list (list N)) :
  train_dict c1 = train_dict c2 →
  correct_words c1 words acc = correct_words c2 words acc.
Proof.
  intros Heq. revert acc. induction words as [|w words IH]; intros acc.
  - done.
  - simpl. rewrite Heq (find_closest_word_ext c1 c2 w Heq).
    destruct (PyDict.contains (train_dict c2) w); [by apply IH|].
    destruct (_find_closest_word c2 w); simpl; [by apply IH | done].
Qed.

End ResolveFacts.

(** ** The noise class *)

Section NoiseFacts.
Import SentenceCorrector.

Lemma class_matches_above (cls : list Re.class_item) (c : N) :
  Forall (fun i => (Re.item_upper i < c)%N) cls →
  Re.class_matches cls c = false.
Proof.
  unfold Re.class_matches. induction 1 as [|i cls Hi _ IH]; simpl; [done|].
  rewrite IH orb_false_r. destruct i as [c'|lo hi]; simpl in *.
  - apply N.eqb_neq. lia.
  - apply andb_false_intro2. apply N.leb_gt. lia.
Qed.

(** The class of the pattern is the class the specification lists,
    together with the six other characters of the range from [$] to [-]. *)
Lemma noise_class_matches (c : N) :
  Re.class_matches noise_class c
  = Spec.is_noise c || bool_decide (c ∈ Spec.range_extras).
Proof.
  destruct (N.lt_ge_cases c 256) as [Hlt|Hge].
  - assert (forallb (fun n =>
              Bool.eqb (Re.class_matches noise_class (N.of_nat n))
                       (Spec.is_noise (N.of_nat n)
                        || bool_decide (N.of_nat n ∈ Spec.range_extras)))
              (seq 0 256) = true) as Hall by (vm_compute; reflexivity).
    rewrite forallb_forall in Hall.
    specialize (Hall (N.to_nat c)). rewrite N2Nat.id in Hall.
    apply Bool.eqb_prop, Hall, in_seq. lia.
  - rewrite class_matches_above; last first.
    { apply Forall_forall. intros i Hi.
      assert (forallb (fun i => Re.item_upper i <? 256)%N noise_class = true)
        as Hall by (vm_compute; reflexivity).
      rewrite forallb_forall in Hall.
      apply list_elem_of_In, Hall, N.ltb_lt in Hi. lia. }
    symmetry. apply orb_false_intro.
    + unfold Spec.is_noise. apply orb_false_intro.
      * apply orb_false_intro; apply andb_false_intro2, N.leb_gt; lia.
      * apply bool_decide_eq_false_2.
        rewrite !elem_of_cons elem_of_nil. lia.
    + apply bool_decide_eq_false_2. unfold Spec.range_extras.
      rewrite !elem_of_cons elem_of_nil. lia.
Qed.

(** On a string whose lower-case form has none of those six characters
    the code tokenizes as the specification says. *)
Lemma tokenize_agrees (lower : list N → list N) (s : list N) :
  Forall (fun c => c ∉ Spec.range_extras) (lower s) →
  tokenize lower s = Spec.tokenize lower s.
Proof.
  intros Hs. unfold tokenize, Spec.tokenize, Re.sub_class. f_equal.
  induction Hs as [|c l Hc _ IH]; [done|]. cbn [flat_map].
  rewrite IH noise_class_matches (bool_decide_eq_false_2 _ Hc) orb_false_r //.
Qed.

End NoiseFacts.

(** * The claims *)

Section Claims.
Import SentenceCorrector.

(** C1.  For a lexicon that is not empty and a token [w] that is not one of
    its keys, [_find_closest_word] returns a key [r] of the lexicon whose
    Levenshtein distance from [w] is the least over all keys: [r] is
    reached from [w] by an edit script of [d] insertions, deletions and
    substitutions, no key is reached by a cheaper script, and so no key
    at a strictly smaller distance than [r] exists. *)
Theorem closest_word_distance_minimal (self : SentenceCorrector.t)
    (w : list N) :
  train_dict self ≠ [] →
  PyDict.contains (train_dict self) w = false →
  ∃ r, _find_closest_word self w = Some r
    ∧ r ∈ PyDict.keys (train_dict self)
    ∧ Levenshtein.edits w r (_levenshtein_distance self w r)
    ∧ (∀ k n, k ∈ PyDict.keys (train_dict self) → Levenshtein.edits w k n →
         _levenshtein_distance self w r ≤ n)
    ∧ (∀ k, k ∈ PyDict.keys (train_dict self) →
         _levenshtein_distance self w r ≤ _levenshtein_distance self w k)
    ∧ ¬ (∃ k, k ∈ PyDict.keys (train_dict self)
              ∧ _levenshtein_distance self w k
                < _levenshtein_distance self w r).
Proof.
  intros Hne Hnot.
  destruct (find_closest_word_spec self w Hne Hnot)
    as (r & k1 & k2 & fr & Hr & Hkeys & _ & Hmin & _).
  exists r. unfold _levenshtein_distance. split_and!.
  - done.
  - rewrite Hkeys. apply elem_of_app. right. apply list_elem_of_here.
  - apply distance_achieved.
  - intros k n Hk Hn. apply distance_minimal in Hn.
    specialize (Hmin k Hk). lia.
  - done.
  - intros (k & Hk & Hlt). specialize (Hmin k Hk). lia.
Qed.

Lemma closest_word_distance_minimal_witness :
  train_dict Sample.good_bad ≠ []
  ∧ PyDict.contains (train_dict Sample.good_bad) (u "харашо") = false
  ∧ ∃ r, _find_closest_word Sample.good_bad (u "харашо") = Some r
      ∧ r ∈ PyDict.keys (train_dict Sample.good_bad).
Proof.
  assert (train_dict Sample.good_bad ≠ []) as H1 by done.
  assert (PyDict.contains (train_dict Sample.good_bad) (u "харашо") = false)
    as H2 by reflexivity.
  split_and!; [done | done |].
  destruct (closest_word_distance_minimal Sample.good_bad (u "харашо") H1 H2)
    as (r & Hr & Hin & _).
  by exists r.
Defined.

(** C2.  For a token [w] that is not a key, [_find_closest_word] returns a
    key of the largest frequency among the keys at the least distance from
    [w].  The choice is fixed by the lexicon alone: among those keys it is
    the first, in the lexicon's order, that has the largest frequency, and
    two correctors with the same lexicon return the same word.  (Of an
    empty lexicon there is no key to return, and the token itself is
    returned.)  With the lexicon that maps "хорошо" to 10 and "плохо" to 5
    the token "харашо" resolves to "хорошо". *)
Theorem closest_word_most_frequent (self : SentenceCorrector.t)
    (w : list N) :
  PyDict.contains (train_dict self) w = false →
  (train_dict self ≠ [] →
   ∃ r fr k1 k2,
     _find_closest_word self w = Some r
     ∧ PyDict.keys (train_dict self) = k1 ++ r :: k2
     ∧ PyDict.get (train_dict self) r = Some fr
     ∧ (∀ k, k ∈ PyDict.keys (train_dict self) →
          Levenshtein.distance w r ≤ Levenshtein.distance w k)
     ∧ (∀ k fk, k ∈ PyDict.keys (train_dict self) →
          Levenshtein.distance w k = Levenshtein.distance w r →
          PyDict.get (train_dict self) k = Some fk → (fk ≤ fr)%Z)
     ∧ (∀ k fk, k ∈ k1 →
          Levenshtein.distance w k = Levenshtein.distance w r →
          PyDict.get (train_dict self) k = Some fk → (fk < fr)%Z))
  ∧ (train_dict self = [] → _find_closest_word self w = Some w)
  ∧ (∀ other, train_dict other = train_dict self →
       _find_closest_word other w = _find_closest_word self w)
  ∧ _find_closest_word Sample.good_bad (u "харашо") = Some (u "хорошо").
Proof.
  intros Hnot. split_and!.
  - intros Hne.
    destruct (find_closest_word_spec self w Hne Hnot)
      as (r & k1 & k2 & fr & Hr & Hkeys & Hfr & Hmin & Hbefore & Hafter).
    exists r, fr, k1, k2. split_and!; try done.
    intros k fk Hk Hd Hfk. rewrite Hkeys in Hk.
    apply elem_of_app in Hk as [Hk|Hk].
    + specialize (Hbefore k fk Hk Hd Hfk). lia.
    + apply elem_of_cons in Hk as [->|Hk].
      * rewrite Hfr in Hfk. injection Hfk as <-. lia.
      * by apply (Hafter k fk).
  - by apply find_closest_word_empty.
  - intros other Heq. by apply find_closest_word_ext.
  - vm_compute. reflexivity.
Qed.

Lemma closest_word_most_frequent_witness :
  PyDict.contains (train_dict Sample.good_bad) (u "харашо") = false
  ∧ train_dict Sample.good_bad ≠ []
  ∧ ∃ r fr, _find_closest_word Sample.good_bad (u "харашо") = Some r
            ∧ PyDict.get (train_dict Sample.good_bad) r = Some fr.
Proof.
  assert (PyDict.contains (train_dict Sample.good_bad) (u "харашо") = false)
    as H1 by reflexivity.
  assert (train_dict Sample.good_bad ≠ []) as H2 by done.
  split_and!; [done | done |].
  destruct (proj1 (closest_word_most_frequent Sample.good_bad (u "харашо") H1)
              H2) as (r & fr & k1 & k2 & Hr & _ & Hfr & _).
  by exists r, fr.
Defined.

(** C5.  A token that is a key of the lexicon is returned unchanged, its
    distance from itself being 0; resolving the result again gives the
    same word. *)
Theorem key_resolves_to_itself (self : SentenceCorrector.t) (w : list N) :
  PyDict.contains (train_dict self) w = true →
  _find_closest_word self w = Some w
  ∧ _find_closest_word self w ≫= _find_closest_word self = Some w
  ∧ _levenshtein_distance self w w = 0.
Proof.
  intros Hw. rewrite find_closest_word_key //=. split_and!.
  - done.
  - by apply find_closest_word_key.
  - apply distance_diag.
Qed.

Lemma key_resolves_to_itself_witness :
  PyDict.contains (train_dict Sample.good_bad) (u "плохо") = true
  ∧ _find_closest_word Sample.good_bad (u "плохо") = Some (u "плохо").
Proof.
  assert (PyDict.contains (train_dict Sample.good_bad) (u "плохо") = true)
    as H by reflexivity.
  split; [done|].
  exact (proj1 (key_resolves_to_itself Sample.good_bad (u "плохо") H)).
Defined.

(** [correct_sentence] never raises: it returns the words [rs] joined by
    single spaces, where [rs] has, in the order of the tokens that the
    code's own tokenization yields, the token itself when it is a key of
    the lexicon and the result of [_find_closest_word] otherwise. *)
Lemma correct_sentence_words (lower : list N → list N)
    (self : SentenceCorrector.t) (sentence : list N) :
  ∃ rs, correct_sentence lower self sentence = Some (join (u " ") rs)
    ∧ Forall2 (fun tok r =>
                 if PyDict.contains (train_dict self) tok then r = tok
                 else _find_closest_word self tok = Some r)
              (tokenize lower sentence) rs
    ∧ (tokenize lower sentence = [] →
       correct_sentence lower self sentence = Some []).
Proof.
  unfold correct_sentence.
  destruct (correct_words_spec self (tokenize lower sentence) [])
    as (rs & Hrs & Hall).
  exists rs. rewrite Hrs /=. split_and!; [done | done |].
  intros Hnil. rewrite Hnil in Hall. by apply Forall2_nil_inv_l in Hall as ->.
Qed.

(** The loop of [correct_sentence] treats the tokens one by one. *)
Lemma correct_words_mapM (self : SentenceCorrector.t)
    (words acc : list (list N)) :
  correct_words self words acc
  = rs ← mapM (Worded.resolve_token self) words; Some (acc ++ rs).
Proof.
  revert acc. induction words as [|w words IH]; intros acc.
  - simpl. by rewrite app_nil_r.
  - cbn [correct_words].
    change (mapM (Worded.resolve_token self) (w :: words))
      with (y ← Worded.resolve_token self w;
            k ← mapM (Worded.resolve_token self) words; mret (y :: k)).
    destruct (PyDict.contains (train_dict self) w) eqn:Hc.
    + assert (Worded.resolve_token self w = Some w) as ->
        by (unfold Worded.resolve_token; by rewrite Hc).
      rewrite IH /=. destruct (mapM _ words); simpl; [|done].
      by rewrite -app_assoc.
    + assert (Worded.resolve_token self w = _find_closest_word self w) as ->
        by (unfold Worded.resolve_token; by rewrite Hc).
      destruct (_find_closest_word self w) as [r|]; simpl; [|done].
      rewrite IH. destruct (mapM _ words); simpl; [|done].
      by rewrite -app_assoc.
Qed.

(** On a sentence whose lower-cased form has no percent sign, ampersand,
    parenthesis, asterisk or plus sign, [correct_sentence] is the
    correction that the specification words. *)
Lemma correct_sentence_as_worded (lower : list N → list N)
    (self : SentenceCorrector.t) (sentence : list N) :
  Forall (fun c => c ∉ Spec.range_extras) (lower sentence) →
  correct_sentence lower self sentence = Worded.correct lower self sentence.
Proof.
  intros Hs. unfold correct_sentence, Worded.correct.
  rewrite correct_words_mapM (tokenize_agrees lower sentence Hs).
  by destruct (mapM _ _).
Qed.

(** C7.  [correct_sentence] tokenizes with the pattern's class, which is
    wider than the listed one: "привет(друг" is two tokens for the code,
    both keys of the lexicon, and comes back as "привет друг"; tokenized
    as the specification says it is one token, which is no key and
    resolves to "привет". *)
Theorem correct_sentence_splits_at_parenthesis :
  tokenize lower_basic (u "привет(друг") = [u "привет"; u "друг"]
  ∧ correct_sentence lower_basic Worded.friends (u "привет(друг")
    = Some (u "привет друг")
  ∧ Spec.tokenize lower_basic (u "привет(друг") = [u "привет(друг"]
  ∧ PyDict.contains (train_dict Worded.friends) (u "привет(друг") = false
  ∧ _find_closest_word Worded.friends (u "привет(друг") = Some (u "привет")
  ∧ Worded.correct lower_basic Worded.friends (u "привет(друг")
    = Some (u "привет").
Proof. split_and!; vm_compute; reflexivity. Qed.

(** C9.  Two correctors that differ in nothing but the sonority table give
    the same result for every token and for every sentence. *)
Theorem sonority_never_consulted (c1 c2 : SentenceCorrector.t) :
  dict_full c1 = dict_full c2 →
  train_dict c1 = train_dict c2 →
  (∀ w, _find_closest_word c1 w = _find_closest_word c2 w)
  ∧ (∀ lower s, correct_sentence lower c1 s = correct_sentence lower c2 s).
Proof.
  intros _ Htd. split.
  - intros w. by apply find_closest_word_ext.
  - intros lower s. unfold correct_sentence.
    by rewrite (correct_words_ext c1 c2 _ _ Htd).
Qed.

Lemma sonority_never_consulted_witness :
  dict_full Sample.good_bad = dict_full Sample.good_bad_mute
  ∧ train_dict Sample.good_bad = train_dict Sample.good_bad_mute
  ∧ sonority Sample.good_bad ≠ sonority Sample.good_bad_mute
  ∧ ∀ w, _find_closest_word Sample.good_bad w
         = _find_closest_word Sample.good_bad_mute w.
Proof.
  split_and!; [reflexivity | reflexivity | done |].
  exact (proj1 (sonority_never_consulted Sample.good_bad Sample.good_bad_mute
                  eq_refl eq_refl)).
Defined.

(** C10.  Of a lexicon that is not empty [_find_closest_word] returns a
    key, for every token: the token itself when the token is a key, and
    otherwise a key at the least distance from the token, which is then
    another word.  The key may be the empty string: the corrector
    built from an empty word list and five sentences "привет" resolves "я"
    to the empty string, and its corrected "привет я привет" has two spaces
    in a row. *)
Theorem resolve_returns_key (self : SentenceCorrector.t) (w : list N) :
  train_dict self ≠ [] →
  (∃ r, _find_closest_word self w = Some r
        ∧ r ∈ PyDict.keys (train_dict self)
        ∧ (w ∈ PyDict.keys (train_dict self) → r = w)
        ∧ (w ∉ PyDict.keys (train_dict self) →
           r ≠ w
           ∧ ∀ k, k ∈ PyDict.keys (train_dict self) →
                  Levenshtein.distance w r ≤ Levenshtein.distance w k))
  ∧ __init__ lower_basic [] (replicate 5 (u "привет")) = Some Sample.greeting
  ∧ _find_closest_word Sample.greeting (u "я") = Some []
  ∧ correct_sentence lower_basic Sample.greeting (u "привет я привет")
    = Some (u "привет  привет").
Proof.
  intros Hne. split_and!.
  - destruct (PyDict.contains (train_dict self) w) eqn:Hc.
    + exists w. rewrite find_closest_word_key //.
      apply contains_keys in Hc. split_and!; done.
    + destruct (find_closest_word_spec self w Hne Hc)
        as (r & k1 & k2 & fr & Hr & Hkeys & _ & Hmin & _).
      apply not_contains_keys in Hc.
      assert (r ∈ PyDict.keys (train_dict self)) as Hin.
      { rewrite Hkeys. apply elem_of_app. right. apply list_elem_of_here. }
      exists r. split_and!; [done | done | done |].
      intros _. split; [|done]. by intros ->.
  - vm_compute. reflexivity.
  - vm_compute. reflexivity.
  - vm_compute. reflexivity.
Qed.

Lemma resolve_returns_key_witness :
  train_dict Sample.good_bad ≠ []
  ∧ (∃ r, _find_closest_word Sample.good_bad (u "плохо") = Some r
          ∧ r = u "плохо")
  ∧ (∃ r, _find_closest_word Sample.good_bad (u "харашо") = Some r
          ∧ r ≠ u "харашо"
          ∧ r ∈ PyDict.keys (train_dict Sample.good_bad)).
Proof.
  assert (train_dict Sample.good_bad ≠ []) as H by done.
  split_and!; [done | |].
  - destruct (proj1 (resolve_returns_key Sample.good_bad (u "плохо") H))
      as (r & Hr & _ & Hkey & _).
    exists r. split; [exact Hr|]. apply Hkey.
    apply (bool_decide_unpack _). vm_compute. exact I.
  - destruct (proj1 (resolve_returns_key Sample.good_bad (u "харашо") H))
      as (r & Hr & Hin & _ & Hother).
    exists r. split_and!; [exact Hr | | exact Hin].
    apply Hother. intros Hkey. apply (bool_decide_pack _) in Hkey.
    vm_compute in Hkey. exact Hkey.
Defined.

(** C3.  Given a frequency table and a base vocabulary, the filter drops
    the token [w] of count [c] exactly when [w] is not in the base
    vocabulary and [c < 5], or [w] is shorter than 4, [c < 50] and [w] is
    not in the base vocabulary; a token that is kept keeps its count, and
    the sentinel added afterwards touches no other token.  With an empty
    base vocabulary and the counts "стол" 3, "окно" 60, "дом" 5 only
    "окно" is left, with count 60. *)
Theorem filter_drops_exactly (dict_full : gmap (list N) Z)
    (buf : list (list N * Z)) :
  PyDict.wf buf →
  (∃ dictionary,
     filter_loop dict_full buf (PyDict.keys buf) buf = Some dictionary
     ∧ filter_dictionary dict_full buf = Some (PyDict.set dictionary [] 1%Z)
     ∧ (∀ w c, PyDict.get buf w = Some c →
          (Spec.drops dict_full w c → PyDict.get dictionary w = None)
          ∧ (¬ Spec.drops dict_full w c → PyDict.get dictionary w = Some c))
     ∧ (∀ w, PyDict.get buf w = None → PyDict.get dictionary w = None)
     ∧ (∀ w, w ≠ [] →
          PyDict.get (PyDict.set dictionary [] 1%Z) w
          = PyDict.get dictionary w))
  ∧ Spec.drops ∅ (u "стол") 3 ∧ Spec.drops ∅ (u "дом") 5
  ∧ ¬ Spec.drops ∅ (u "окно") 60
  ∧ filter_loop ∅ Sample.furniture (PyDict.keys Sample.furniture)
      Sample.furniture = Some [(u "окно", 60%Z)]
  ∧ filter_dictionary ∅ Sample.furniture
    = Some [(u "окно", 60%Z); ([], 1%Z)].
Proof.
  intros Hwf. split_and!.
  - exists (filter (Spec.kept dict_full) buf).
    pose proof (filter_loop_spec dict_full buf Hwf) as Hloop.
    split_and!.
    + done.
    + unfold filter_dictionary. by rewrite Hloop.
    + intros w c Hc. rewrite get_filter // Hc. unfold Spec.kept. simpl.
      split; intros Hd.
      * rewrite decide_False //. tauto.
      * rewrite decide_True //.
    + intros w Hw. by rewrite get_filter // Hw.
    + intros w Hw. rewrite get_set decide_False //.
  - left. split; [done | lia].
  - right. split_and!; [simpl; lia | lia | done].
  - intros [[_ H]|[H _]]; [lia | simpl in H; lia].
  - vm_compute. reflexivity.
  - vm_compute. reflexivity.
Qed.

Lemma filter_drops_exactly_witness :
  PyDict.wf Sample.furniture
  ∧ ∃ dictionary,
      filter_loop ∅ Sample.furniture (PyDict.keys Sample.furniture)
        Sample.furniture = Some dictionary
      ∧ filter_dictionary ∅ Sample.furniture
        = Some (PyDict.set dictionary [] 1%Z).
Proof.
  assert (PyDict.wf Sample.furniture) as H.
  { unfold PyDict.wf. apply (bool_decide_unpack _). vm_compute. exact I. }
  split; [done|].
  destruct (proj1 (filter_drops_exactly ∅ Sample.furniture H))
    as (dictionary & Hloop & Hfilter & _).
  by exists dictionary.
Defined.

(** C4.  Whatever the corpus and the base vocabulary, construction ends
    with a lexicon that has the empty string as a key, once, with
    frequency 1; and whatever table the filter is handed, also one that
    already has the empty string with another count, the result has it
    with frequency 1. *)
Theorem sentinel_always_present (lower : list N → list N)
    (dict_full : gmap (list N) Z) (train_correct : list (list N))
    (buf : list (list N * Z)) :
  (∃ lexicon,
     _process_training_data lower dict_full train_correct = Some lexicon
     ∧ PyDict.get lexicon [] = Some 1%Z
     ∧ PyDict.wf lexicon)
  ∧ (∃ lexicon,
       filter_dictionary dict_full buf = Some lexicon
       ∧ PyDict.get lexicon [] = Some 1%Z)
  ∧ filter_dictionary {[ [] := 1%Z ]} [(u "окно", 60%Z); ([], 7%Z)]
    = Some [(u "окно", 60%Z); ([], 1%Z)].
Proof.
  split_and!; [| |vm_compute; reflexivity].
  - unfold _process_training_data, filter_dictionary.
    destruct (count_corpus_counted lower train_correct) as (Hwf & _).
    rewrite filter_loop_spec //.
    exists (PyDict.set (filter (Spec.kept dict_full)
                          (count_corpus lower train_correct)) [] 1%Z).
    split_and!; [done | |].
    + rewrite get_set. by destruct (decide _).
    + by apply wf_set, wf_filter.
  - unfold filter_dictionary.
    destruct (filter_loop_total dict_full buf (PyDict.keys buf) buf)
      as [dictionary ->]; [done|].
    exists (PyDict.set dictionary [] 1%Z). split; [done|].
    rewrite get_set. by destruct (decide _).
Qed.

(** C6.  The pattern's class is wider than the one the specification
    lists: an opening parenthesis is replaced by a space and so separates
    two tokens, where the listed class would leave it inside one. *)
Theorem tokenize_splits_at_parenthesis :
  tokenize lower_basic (u "привет (мир)") = [u "привет"; u "мир"]
  ∧ Spec.tokenize lower_basic (u "привет (мир)") = [u "привет"; u "(мир)"]
  ∧ Re.class_matches noise_class 40 = true
  ∧ Spec.is_noise 40 = false.
Proof. split_and!; vm_compute; reflexivity. Qed.

(** C8, as the code has it.  The loader trims the whitespace at both ends
    of the line: the line is whitespace, then a core that neither begins
    nor ends with whitespace, then whitespace.  When the core begins with
    a hyphen, the core without that one character is inserted, with value
    1; otherwise the core is. *)
Theorem load_line_strips_both_ends (dict_full : gmap (list N) Z)
    (line : list N) :
  ∃ ws1 core ws2,
    line = ws1 ++ core ++ ws2
    ∧ Forall (fun c => isspace c = true) ws1
    ∧ Forall (fun c => isspace c = true) ws2
    ∧ (∀ c, head core = Some c → isspace c = false)
    ∧ (∀ c, last core = Some c → isspace c = false)
    ∧ load_line dict_full line
      = <[match core with
          | 45%N :: rest => rest
          | _ => core
          end := 1%Z]> dict_full.
Proof.
  destruct (strip_spec line) as (ws1 & ws2 & Hline & H1 & H2 & Hhd & Hlast).
  exists ws1, (strip line), ws2. split_and!; try done.
  unfold load_line, startswith, slice_from_1.
  destruct (strip line) as [|c rest]; [done|].
  change (u "-") with [45%N]. simpl. rewrite take_0.
  destruct (decide (c = 45%N)) as [->|Hc].
  - rewrite bool_decide_eq_true_2 //.
  - rewrite bool_decide_eq_false_2; [|congruence].
    destruct c as [|p]; [done|].
    do 6 (try destruct p as [p|p|]; try done).
Qed.

(** C8, as the specification has it, fails on a line that begins with a
    space: the code inserts the word without the space. *)
Lemma load_line_keeps_no_leading_space :
  load_line ∅ (u " кот" ++ [10%N]) = {[ u "кот" := 1%Z ]}
  ∧ Spec.load_line ∅ (u " кот" ++ [10%N]) = {[ u " кот" := 1%Z ]}
  ∧ load_line ∅ (u " кот" ++ [10%N]) ≠ Spec.load_line ∅ (u " кот" ++ [10%N]).
Proof.
  split_and!.
  - vm_compute. reflexivity.
  - vm_compute. reflexivity.
  - intros H. apply (f_equal (fun m => m !! u "кот")) in H.
    vm_compute in H. discriminate H.
Qed.

End Claims.

(** * Further properties of the code *)

(** ** More on strings *)

Section MoreStrFacts.

Lemma lstrip_spaces_app (ws s : list N) :
  Forall (fun c => isspace c = true) ws → lstrip (ws ++ s) = lstrip s.
Proof. induction 1 as [|c ws Hc _ IH]; simpl; [done | by rewrite Hc]. Qed.

Lemma lstrip_spaces (ws : list N) :
  Forall (fun c => isspace c = true) ws → lstrip ws = [].
Proof.
  intros H. rewrite -(app_nil_r ws). by rewrite lstrip_spaces_app.
Qed.

Lemma lstrip_nonspace_head (s : list N) :
  (∀ c, head s = Some c → isspace c = false) → lstrip s = s.
Proof.
  destruct s as [|c s]; [done|]. intros H. simpl. by rewrite (H c).
Qed.

(** [strip] finds the core of a line however it is surrounded. *)
Lemma strip_decomposed (ws1 core ws2 : list N) :
  Forall (fun c => isspace c = true) ws1 →
  Forall (fun c => isspace c = true) ws2 →
  (∀ c, head core = Some c → isspace c = false) →
  (∀ c, last core = Some c → isspace c = false) →
  strip (ws1 ++ core ++ ws2) = core.
Proof.
  intros H1 H2 Hhd Hlast. unfold strip. rewrite lstrip_spaces_app //.
  destruct core as [|c core].
  - simpl. rewrite lstrip_spaces //.
  - rewrite lstrip_nonspace_head //.
    unfold rstrip. rewrite reverse_app lstrip_spaces_app;
      last by apply Forall_reverse.
    rewrite lstrip_nonspace_head ?reverse_involutive //.
    intros c'. rewrite head_reverse. apply Hlast.
Qed.

Lemma split_from_spaces (ws : list N) :
  Forall (fun c => isspace c = true) ws → split_from [] ws = [].
Proof. induction 1 as [|c ws Hc _ IH]; simpl; [done | by rewrite Hc]. Qed.

(** Every character of a word that [split] yields is a character of the
    string. *)
Lemma split_from_chars (cur s w : list N) (c : N) :
  w ∈ split_from cur s → c ∈ w → c ∈ cur ∨ c ∈ s.
Proof.
  revert cur. induction s as [|a s IH]; intros cur; simpl.
  - destruct cur as [|b cur]; [by intros ?%elem_of_nil|].
    intros ->%list_elem_of_singleton Hc. left. by apply elem_of_reverse.
  - destruct (isspace a).
    + destruct cur as [|b cur].
      * intros Hw Hc. destruct (IH [] Hw Hc) as [?%elem_of_nil|?]; [done|].
        right. by apply list_elem_of_further.
      * intros [->|Hw]%elem_of_cons Hc.
        -- left. by apply elem_of_reverse.
        -- destruct (IH [] Hw Hc) as [?%elem_of_nil|?]; [done|].
           right. by apply list_elem_of_further.
    + intros Hw Hc. destruct (IH (a :: cur) Hw Hc) as [Hin|Hin].
      * apply elem_of_cons in Hin as [->|Hin]; [right|left]; [|done].
        apply list_elem_of_here.
      * right. by apply list_elem_of_further.
Qed.

End MoreStrFacts.

(** ** More on the edit distance *)

Section MoreDistanceFacts.
Import Levenshtein.

Lemma edits_sym (s t : list N) (n : nat) : edits s t n → edits t s n.
Proof. induction 1; by constructor. Qed.

Lemma distance_sym (s t : list N) : distance s t = distance t s.
Proof.
  apply Nat.le_antisymm; apply distance_minimal, edits_sym, distance_achieved.
Qed.

Lemma edits_zero (s t : list N) (n : nat) : edits s t n → n = 0 → s = t.
Proof. induction 1; intros Hn; try done. f_equal. by apply IHedits. Qed.

Lemma distance_zero (s t : list N) : distance s t = 0 ↔ s = t.
Proof.
  split.
  - intros H. eapply edits_zero; [apply distance_achieved | done].
  - intros ->. apply distance_diag.
Qed.

End MoreDistanceFacts.

(** ** The word list *)

Section LoaderFacts.
Import SentenceCorrector.

Lemma load_line_stored (dict_full : gmap (list N) Z) (line : list N) :
  load_line dict_full line = <[Derived.stored_word line := 1%Z]> dict_full.
Proof.
  unfold load_line, Derived.stored_word, startswith, slice_from_1.
  destruct (strip line) as [|c rest]; [done|].
  change (u "-") with [45%N]. simpl. rewrite take_0.
  destruct (decide (c = 45%N)) as [->|Hc].
  - rewrite bool_decide_eq_true_2 //.
  - rewrite bool_decide_eq_false_2; [|congruence].
    destruct c as [|p]; [done|].
    do 6 (try destruct p as [p|p|]; try done).
Qed.

Lemma load_lines_lookup (m : gmap (list N) Z) (lines : list (list N))
    (w : list N) :
  foldl load_line m lines !! w =
    if bool_decide (w ∈ Derived.stored_word <$> lines) then Some 1%Z
    else m !! w.
Proof.
  revert m. induction lines as [|line lines IH]; intros m; simpl.
  - done.
  - rewrite IH load_line_stored.
    destruct (decide (w ∈ Derived.stored_word <$> lines)) as [Hin|Hin].
    + rewrite !bool_decide_eq_true_2 //. by apply list_elem_of_further.
    + rewrite (bool_decide_eq_false_2 _ Hin).
      destruct (decide (w = Derived.stored_word line)) as [->|Hne].
      * rewrite lookup_insert_eq bool_decide_eq_true_2 //.
        apply list_elem_of_here.
      * rewrite lookup_insert_ne // bool_decide_eq_false_2 //.
        by intros [?|?]%elem_of_cons.
Qed.

Lemma stored_word_no_trailing_space (line : list N) (c : N) :
  last (Derived.stored_word line) = Some c → isspace c = false.
Proof.
  unfold Derived.stored_word.
  destruct (strip_spec line) as (_ & _ & _ & _ & _ & _ & Hlast).
  destruct (strip line) as [|a rest]; [done|].
  assert (last rest = Some c → isspace c = false) as Hrest.
  { intros H. apply Hlast. destruct rest; [done|]. by rewrite last_cons H. }
  destruct a as [|p]; [apply Hlast|].
  do 6 (try destruct p as [p|p|]; try apply Hlast); apply Hrest.
Qed.

End LoaderFacts.

(** ** Counting the corpus *)

Section MoreCountFacts.
Import SentenceCorrector.
Variable lower : list N → list N.
Implicit Types (buf : list (list N * Z)) (w : list N) (ws : list (list N)).

Lemma occurrences_cons w x ws :
  Derived.occurrences w (x :: ws) =
    ((if decide (x = w) then 1 else 0) + Derived.occurrences w ws)%Z.
Proof.
  unfold Derived.occurrences. rewrite filter_cons.
  destruct (decide (x = w)); simpl; lia.
Qed.

Lemma occurrences_pos w ws : w ∈ ws ↔ (0 < Derived.occurrences w ws)%Z.
Proof.
  induction ws as [|x ws IH].
  - split; [by intros ?%elem_of_nil | unfold Derived.occurrences; simpl; lia].
  - rewrite occurrences_cons elem_of_cons IH.
    assert (0 ≤ Derived.occurrences w ws)%Z
      by (unfold Derived.occurrences; lia).
    destruct (decide (x = w)) as [->|Hne].
    + split; [intros _; lia | intros _; by left].
    + split; [intros [Heq|Hpos]; [congruence | lia] | intros Hpos; right; lia].
Qed.

Lemma count_words_get buf ws w :
  PyDict.get (foldl count_word buf ws) w =
    if bool_decide (w ∈ ws)
    then Some (default 0%Z (PyDict.get buf w) + Derived.occurrences w ws)%Z
    else PyDict.get buf w.
Proof.
  revert buf. induction ws as [|x ws IH]; intros buf; simpl.
  - done.
  - rewrite IH occurrences_cons. unfold count_word. rewrite !get_set.
    destruct (decide (w ∈ ws)) as [Hin|Hin].
    + assert (w ∈ x :: ws) as Hin' by by apply list_elem_of_further.
      rewrite (bool_decide_eq_true_2 _ Hin) (bool_decide_eq_true_2 _ Hin').
      f_equal. repeat case_decide; subst; simpl; try lia; congruence.
    + rewrite (bool_decide_eq_false_2 _ Hin).
      assert (Derived.occurrences w ws = 0%Z) as ->.
      { destruct (decide (0 < Derived.occurrences w ws)%Z) as [Hpos|Hpos].
        - by apply occurrences_pos in Hpos.
        - unfold Derived.occurrences in *. lia. }
      destruct (decide (w = x)) as [->|Hne].
      * assert (x ∈ x :: ws) as Hin' by apply list_elem_of_here.
        rewrite (bool_decide_eq_true_2 _ Hin').
        f_equal. repeat case_decide; subst; simpl; try lia; congruence.
      * assert (w ∉ x :: ws) as Hin' by by intros [?|?]%elem_of_cons.
        rewrite (bool_decide_eq_false_2 _ Hin') //.
Qed.

Lemma keys_set buf w (v : Z) :
  PyDict.keys (PyDict.set buf w v) =
    if bool_decide (w ∈ PyDict.keys buf) then PyDict.keys buf
    else PyDict.keys buf ++ [w].
Proof.
  induction buf as [|[k0 v0] buf IH]; simpl; [done|].
  destruct (decide (w = k0)) as [->|Hne]; simpl.
  - rewrite bool_decide_eq_true_2 //. apply list_elem_of_here.
  - rewrite IH. destruct (decide (w ∈ PyDict.keys buf)) as [Hin|Hin].
    + assert (w ∈ k0 :: PyDict.keys buf) as Hin'
        by by apply list_elem_of_further.
      rewrite (bool_decide_eq_true_2 _ Hin) (bool_decide_eq_true_2 _ Hin') //.
    + assert (w ∉ k0 :: PyDict.keys buf) as Hin'
        by by intros [?|?]%elem_of_cons.
      rewrite (bool_decide_eq_false_2 _ Hin) (bool_decide_eq_false_2 _ Hin') //.
Qed.

Lemma first_occurrences_ext (seen seen' : list (list N)) ws :
  (∀ x, x ∈ seen ↔ x ∈ seen') →
  Derived.first_occurrences seen ws = Derived.first_occurrences seen' ws.
Proof.
  revert seen seen'. induction ws as [|w ws IH]; intros seen seen' H; simpl.
  - done.
  - rewrite (bool_decide_ext _ _ (H w)).
    destruct (bool_decide (w ∈ seen')); [by apply IH|].
    f_equal. apply IH. intros x. rewrite !elem_of_cons H //.
Qed.

Lemma count_words_keys buf ws :
  PyDict.keys (foldl count_word buf ws) =
    PyDict.keys buf ++ Derived.first_occurrences (PyDict.keys buf) ws.
Proof.
  revert buf. induction ws as [|w ws IH]; intros buf; simpl.
  - by rewrite app_nil_r.
  - rewrite IH. unfold count_word. rewrite keys_set.
    destruct (bool_decide (w ∈ PyDict.keys buf)); [done|].
    rewrite -app_assoc. simpl. do 2 f_equal.
    apply first_occurrences_ext. intros x.
    rewrite elem_of_app !elem_of_cons elem_of_nil. tauto.
Qed.

Lemma count_corpus_flat (train_correct : list (list N)) buf :
  foldl (fun buf string => foldl count_word buf (tokenize lower string))
        buf train_correct
  = foldl count_word buf (Derived.corpus_tokens lower train_correct).
Proof.
  revert buf. induction train_correct as [|s rest IH]; intros buf; simpl.
  - done.
  - rewrite IH. unfold Derived.corpus_tokens. simpl. by rewrite foldl_app.
Qed.

End MoreCountFacts.

(** ** Tokens *)

Section TokenFacts.
Import SentenceCorrector.

Lemma sub_class_chars (cls : list Re.class_item) (s : list N) (c : N) :
  c ∈ Re.sub_class cls (u " ") s →
  c = 32%N ∨ (c ∈ s ∧ Re.class_matches cls c = false).
Proof.
  unfold Re.sub_class. induction s as [|a s IH]; simpl.
  - by intros ?%elem_of_nil.
  - intros [Hc|Hc]%elem_of_app.
    + destruct (Re.class_matches cls a) eqn:Ha.
      * left. by apply list_elem_of_singleton in Hc.
      * apply list_elem_of_singleton in Hc as ->. right.
        split; [apply list_elem_of_here | done].
    + destruct (IH Hc) as [?|[? ?]]; [by left|].
      right. split; [by apply list_elem_of_further | done].
Qed.

(** The pattern leaves a string of token characters and spaces alone. *)
Lemma sub_class_clean (s : list N) :
  Forall (fun c => c = 32%N ∨ Derived.token_char c) s →
  Re.sub_class noise_class (u " ") s = s.
Proof.
  unfold Re.sub_class. induction 1 as [|c s Hc _ IH]; [done|].
  cbn [flat_map]. rewrite IH.
  assert (Re.class_matches noise_class c = false) as ->; [|done].
  destruct Hc as [->|[_ ?]]; [by vm_compute | done].
Qed.

Lemma sub_class_noise (s : list N) :
  Forall (fun c => isspace c = true
                   ∨ Re.class_matches noise_class c = true) s →
  Forall (fun c => isspace c = true) (Re.sub_class noise_class (u " ") s).
Proof.
  unfold Re.sub_class. induction 1 as [|c s Hc _ IH]; [constructor|].
  cbn [flat_map]. apply Forall_app. split; [|done].
  destruct (Re.class_matches noise_class c) eqn:E.
  - by repeat constructor.
  - destruct Hc as [?|?]; [by repeat constructor | congruence].
Qed.

(** Every token is made of token characters of the lower-cased string. *)
Lemma tokenize_clean (lower : list N → list N) (s w : list N) :
  w ∈ tokenize lower s →
  w ≠ [] ∧ Forall (fun c => Derived.token_char c ∧ c ∈ lower s) w.
Proof.
  unfold tokenize. intros Hw.
  pose proof (split_words (Re.sub_class noise_class (u " ") (lower s)))
    as Hall.
  rewrite Forall_forall in Hall. destruct (Hall w Hw) as [Hne Hsp].
  split; [done|]. apply Forall_forall. intros c Hc.
  rewrite Forall_forall in Hsp. specialize (Hsp c Hc).
  destruct (split_from_chars [] _ w c Hw Hc) as [?%elem_of_nil|Hin]; [done|].
  apply sub_class_chars in Hin as [->|[Hin Hm]]; [by vm_compute in Hsp|].
  by repeat split.
Qed.

Lemma join_clean (ws : list (list N)) :
  Forall (fun w => Forall Derived.token_char w) ws →
  Forall (fun c => c = 32%N ∨ Derived.token_char c) (join (u " ") ws).
Proof.
  induction 1 as [|w ws Hw _ IH]; [constructor|].
  assert (Forall (fun c => c = 32%N ∨ Derived.token_char c) w) as Hw'.
  { eapply Forall_impl; [exact Hw|]. by right. }
  destruct ws as [|w' ws]; [done|].
  change (join (u " ") (w :: w' :: ws))
    with (w ++ 32%N :: join (u " ") (w' :: ws)).
  apply Forall_app. split; [done|]. constructor; [by left | done].
Qed.

End TokenFacts.

(** ** The lexicon *)

Section LexiconFacts.
Import SentenceCorrector.

Lemma set_absent (d : list (list N * Z)) (k : list N) (v : Z) :
  k ∉ PyDict.keys d → PyDict.set d k v = d ++ [(k, v)].
Proof.
  induction d as [|[k0 v0] d IH]; simpl; [done|].
  rewrite not_elem_of_cons. intros [Hne Hk].
  rewrite decide_False // IH //.
Qed.

Lemma drops_iff (dict_full : gmap (list N) Z) (w : list N) (c : Z) :
  Spec.drops dict_full w c ↔
    dict_full !! w = None ∧ ((c < 5)%Z ∨ (length w < 4 ∧ (c < 50)%Z)).
Proof. unfold Spec.drops. tauto. Qed.

End LexiconFacts.

(** ** Construction and correction, put together *)

Section PipelineFacts.
Import SentenceCorrector.
Implicit Types (lower : list N → list N) (self : SentenceCorrector.t).

Lemma count_corpus_get lower (train_correct : list (list N)) (w : list N) :
  PyDict.get (count_corpus lower train_correct) w =
    if bool_decide (w ∈ Derived.corpus_tokens lower train_correct)
    then Some (Derived.occurrences w
                 (Derived.corpus_tokens lower train_correct))
    else None.
Proof.
  unfold count_corpus. rewrite count_corpus_flat count_words_get /=.
  destruct (bool_decide _); [f_equal; lia | done].
Qed.

Lemma count_corpus_keys lower (train_correct : list (list N)) :
  PyDict.keys (count_corpus lower train_correct) =
    Derived.first_occurrences [] (Derived.corpus_tokens lower train_correct).
Proof. unfold count_corpus. by rewrite count_corpus_flat count_words_keys. Qed.

Lemma corpus_tokens_clean lower (train_correct : list (list N)) (w : list N) :
  w ∈ Derived.corpus_tokens lower train_correct →
  w ≠ [] ∧ Forall Derived.token_char w.
Proof.
  unfold Derived.corpus_tokens. rewrite list_elem_of_bind.
  intros (s & Hw & _). apply tokenize_clean in Hw as [Hne Hw].
  split; [done|]. eapply Forall_impl; [exact Hw|]. by intros c [? _].
Qed.

(** The lexicon that construction builds, entry by entry. *)
Lemma process_training_data_shape lower (dict_full : gmap (list N) Z)
    (train_correct : list (list N)) :
  _process_training_data lower dict_full train_correct =
    Some (filter (Spec.kept dict_full) (count_corpus lower train_correct)
          ++ [([], 1%Z)]).
Proof.
  unfold _process_training_data, filter_dictionary.
  destruct (count_corpus_counted lower train_correct) as (Hwf & Hne & _).
  rewrite filter_loop_spec //=. f_equal. apply set_absent.
  intros Hin. by apply keys_filter_subseteq in Hin.
Qed.

Lemma init_shape lower (lines train_correct : list (list N)) :
  __init__ lower lines train_correct =
    Some {| dict_full := _load_russian_dictionary lines;
            train_dict :=
              filter (Spec.kept (_load_russian_dictionary lines))
                     (count_corpus lower train_correct) ++ [([], 1%Z)];
            sonority := sonority_table |}.
Proof. unfold __init__. by rewrite process_training_data_shape. Qed.

Lemma correct_sentence_total lower self (s : list N) :
  correct_sentence lower self s
  = Some (default [] (correct_sentence lower self s)).
Proof.
  unfold correct_sentence.
  destruct (correct_words_spec self (tokenize lower s) []) as (rs & -> & _).
  done.
Qed.

(** Any key of a non-empty lexicon can come out, nothing else. *)
Lemma find_closest_word_in_keys self (w : list N) :
  train_dict self ≠ [] →
  ∃ r, _find_closest_word self w = Some r
       ∧ r ∈ PyDict.keys (train_dict self).
Proof.
  intros Hne. destruct (PyDict.contains (train_dict self) w) eqn:Hc.
  - exists w. rewrite find_closest_word_key //. split; [done|].
    by apply contains_keys.
  - destruct (find_closest_word_spec self w Hne Hc)
      as (r & k1 & k2 & fr & Hr & Hkeys & _).
    exists r. split; [done|]. rewrite Hkeys.
    apply elem_of_app. right. apply list_elem_of_here.
Qed.

Lemma join_nils (n : nat) :
  join (u " ") (replicate n []) = replicate (n - 1) 32%N.
Proof.
  induction n as [|n IH]; [done|].
  destruct n as [|n]; [done|].
  change (join (u " ") (replicate (S (S n)) []))
    with (32%N :: join (u " ") (replicate (S n) [])).
  rewrite IH. simpl. by rewrite Nat.sub_0_r.
Qed.

Lemma correct_words_length self (words acc rs : list (list N)) :
  correct_words self words acc = Some rs →
  length rs = length acc + length words.
Proof.
  revert acc. induction words as [|w words IH]; intros acc; simpl.
  - intros [= <-]. lia.
  - destruct (PyDict.contains (train_dict self) w).
    + intros H%IH. rewrite length_app /= in H. lia.
    + destruct (_find_closest_word self w); [|done]. simpl.
      intros H%IH. rewrite length_app /= in H. lia.
Qed.

End PipelineFacts.

(** ** The interactive loop *)

Section MainFacts.
Import SentenceCorrector.

(** Lines that are not exit words are answered one by one. *)
Lemma interactive_loop_lines (lower : list N → list N)
    (corrector : SentenceCorrector.t) (texts : list (list N))
    (rest : list Main.event) (printed : list Main.output) :
  Forall (fun t => ¬ Derived.exit_word lower t) texts →
  Main.interactive_loop lower corrector ((Main.Line <$> texts) ++ rest) printed
  = Main.interactive_loop lower corrector rest
      (printed ++ (texts ≫= Derived.line_output lower corrector)).
Proof.
  intros Htexts. revert printed.
  induction Htexts as [|t texts Ht _ IH]; intros printed.
  - simpl. by rewrite app_nil_r.
  - cbn [fmap list_fmap app Main.interactive_loop].
    assert (lower t ∉ [u "выход"; u "exit"]) as Hno.
    { unfold Derived.exit_word in Ht.
      rewrite !elem_of_cons elem_of_nil. tauto. }
    rewrite (bool_decide_eq_false_2 _ Hno).
    cbn [mbind list_bind]. unfold Derived.line_output at 1.
    destruct (Main.truthy (strip t)).
    + rewrite correct_sentence_total /= IH. f_equal.
      rewrite -!app_assoc //.
    + rewrite IH. f_equal. rewrite -!app_assoc //.
Qed.

End MainFacts.

(** * What else the code guarantees *)

Section Extras.
Import SentenceCorrector.

(** X1.  The word list is a set of stored words: a word is a key of the
    dictionary that [_load_russian_dictionary] returns exactly when some
    line stores it, and every value is 1. *)
Theorem word_list_lookup (lines : list (list N)) (w : list N) :
  _load_russian_dictionary lines !! w =
    if bool_decide (w ∈ Derived.stored_word <$> lines) then Some 1%Z
    else None.
Proof.
  unfold _load_russian_dictionary. by rewrite load_lines_lookup lookup_empty.
Qed.

(** X2.  Neither the order of the lines of the word list nor a repeated
    line changes the dictionary. *)
Theorem word_list_order_irrelevant (lines lines' : list (list N)) :
  (∀ line, line ∈ lines ↔ line ∈ lines') →
  _load_russian_dictionary lines = _load_russian_dictionary lines'.
Proof.
  intros Hsame. apply map_eq. intros w. unfold _load_russian_dictionary.
  rewrite !load_lines_lookup.
  assert (w ∈ Derived.stored_word <$> lines
          ↔ w ∈ Derived.stored_word <$> lines') as Hiff.
  { rewrite !list_elem_of_fmap. by setoid_rewrite Hsame. }
  by rewrite (bool_decide_ext _ _ Hiff).
Qed.

Lemma word_list_order_irrelevant_witness :
  (∀ line, line ∈ [u "кот"; u "-дом"; u "кот"] ↔ line ∈ [u "-дом"; u "кот"])
  ∧ _load_russian_dictionary [u "кот"; u "-дом"; u "кот"]
    = _load_russian_dictionary [u "-дом"; u "кот"].
Proof.
  assert (∀ line, line ∈ [u "кот"; u "-дом"; u "кот"]
                  ↔ line ∈ [u "-дом"; u "кот"]) as H.
  { intros line. rewrite !elem_of_cons elem_of_nil. tauto. }
  split; [exact H|]. exact (word_list_order_irrelevant _ _ H).
Defined.

(** X3.  No key of the word-list dictionary ends with whitespace. *)
Theorem word_list_keys_trimmed (lines : list (list N)) (w : list N) (c : N) :
  is_Some (_load_russian_dictionary lines !! w) →
  last w = Some c → isspace c = false.
Proof.
  unfold _load_russian_dictionary. rewrite load_lines_lookup lookup_empty.
  destruct (decide (w ∈ Derived.stored_word <$> lines)) as [Hin|Hin].
  - intros _. apply list_elem_of_fmap in Hin as (line & -> & _).
    apply stored_word_no_trailing_space.
  - rewrite (bool_decide_eq_false_2 _ Hin). by intros [? ?].
Qed.

Lemma word_list_keys_trimmed_witness :
  is_Some (_load_russian_dictionary [u " кот " ++ [10%N]] !! u "кот")
  ∧ last (u "кот") = Some 1090%N
  ∧ isspace 1090 = false.
Proof.
  assert (is_Some (_load_russian_dictionary [u " кот " ++ [10%N]]
                     !! u "кот")) as H1
    by (exists 1%Z; vm_compute; reflexivity).
  assert (last (u "кот") = Some 1090%N) as H2 by reflexivity.
  split_and!; [exact H1 | exact H2 |].
  exact (word_list_keys_trimmed _ _ _ H1 H2).
Defined.

(** X4.  A line that is whitespace, a core that neither begins nor ends
    with whitespace, and whitespace again is stored under its core, less
    one leading hyphen if the core has one. *)
Theorem load_line_of_core (dict_full : gmap (list N) Z)
    (ws1 core ws2 : list N) :
  Forall (fun c => isspace c = true) ws1 →
  Forall (fun c => isspace c = true) ws2 →
  (∀ c, head core = Some c → isspace c = false) →
  (∀ c, last core = Some c → isspace c = false) →
  load_line dict_full (ws1 ++ core ++ ws2)
  = <[match core with
      | 45%N :: rest => rest
      | _ => core
      end := 1%Z]> dict_full.
Proof.
  intros H1 H2 Hhd Hlast. rewrite load_line_stored.
  unfold Derived.stored_word. rewrite strip_decomposed //.
  destruct core as [|a rest]; [done|]. destruct a as [|p]; [done|].
  do 6 (try destruct p as [p|p|]; try done).
Qed.

Lemma load_line_of_core_witness :
  Forall (fun c => isspace c = true) (u "  ")
  ∧ Forall (fun c => isspace c = true) [10%N]
  ∧ (∀ c, head (u "--кот") = Some c → isspace c = false)
  ∧ (∀ c, last (u "--кот") = Some c → isspace c = false)
  ∧ load_line ∅ (u "  " ++ u "--кот" ++ [10%N]) = {[ u "-кот" := 1%Z ]}.
Proof.
  assert (Forall (fun c => isspace c = true) (u "  ")) as H1
    by (repeat constructor).
  assert (Forall (fun c => isspace c = true) [10%N]) as H2
    by (repeat constructor).
  assert (∀ c, head (u "--кот") = Some c → isspace c = false) as H3
    by (by intros c [= <-]).
  assert (∀ c, last (u "--кот") = Some c → isspace c = false) as H4
    by (by intros c [= <-]).
  split_and!; [exact H1 | exact H2 | exact H3 | exact H4 |].
  exact (load_line_of_core ∅ _ _ _ H1 H2 H3 H4).
Defined.

(** X5.  The frequency table counts occurrences: a token of the corpus is
    mapped to the number of times it occurs in the corpus, and nothing
    else is a key. *)
Theorem corpus_counts (lower : list N → list N)
    (train_correct : list (list N)) (w : list N) :
  PyDict.get (count_corpus lower train_correct) w =
    if bool_decide (w ∈ Derived.corpus_tokens lower train_correct)
    then Some (Derived.occurrences w
                 (Derived.corpus_tokens lower train_correct))
    else None.
Proof. apply count_corpus_get. Qed.

(** X6.  The keys of the frequency table are the distinct tokens of the
    corpus in the order in which they first occur. *)
Theorem corpus_key_order (lower : list N → list N)
    (train_correct : list (list N)) :
  PyDict.keys (count_corpus lower train_correct) =
    Derived.first_occurrences [] (Derived.corpus_tokens lower train_correct).
Proof. apply count_corpus_keys. Qed.

(** X7.  A token is never empty, and each of its characters is a
    character of the lower-cased string that is neither whitespace nor
    matched by the pattern. *)
Theorem tokens_are_clean (lower : list N → list N) (s w : list N) :
  w ∈ tokenize lower s →
  w ≠ []
  ∧ Forall (fun c => isspace c = false
                     ∧ Re.class_matches noise_class c = false
                     ∧ c ∈ lower s) w.
Proof.
  intros [Hne Hw]%tokenize_clean. split; [done|].
  eapply Forall_impl; [exact Hw|]. by intros c [[? ?] ?].
Qed.

Lemma tokens_are_clean_witness :
  u "мир" ∈ tokenize lower_basic (u "Привет, (мир) 2024!")
  ∧ u "мир" ≠ [].
Proof.
  assert (u "мир" ∈ tokenize lower_basic (u "Привет, (мир) 2024!")) as H
    by (apply (bool_decide_unpack _); vm_compute; exact I).
  split; [exact H|]. exact (proj1 (tokens_are_clean _ _ _ H)).
Defined.

(** X8.  The characters that the pattern replaces are the digits, the
    small Latin letters, the thirteen punctuation characters that the
    pattern names, and the six further characters between the dollar sign
    and the hyphen: percent sign, ampersand, parentheses, asterisk and
    plus sign.  No other character is replaced. *)
Theorem noise_class_exact (c : N) :
  Re.class_matches noise_class c = true ↔
    (48 ≤ c ≤ 57)%N ∨ (97 ≤ c ≤ 122)%N
    ∨ c ∈ [33; 64; 35; 36; 45; 44; 46; 63; 172; 93; 91; 39; 34]%N
    ∨ c ∈ [37; 38; 40; 41; 42; 43]%N.
Proof.
  rewrite noise_class_matches. unfold Spec.is_noise, Spec.range_extras.
  rewrite !orb_true_iff !andb_true_iff !N.leb_le !bool_decide_eq_true.
  tauto.
Qed.

(** X9.  Tokenizing is stable: when lower-casing leaves the tokens of a
    string joined by single spaces as they are, tokenizing that string
    gives the same tokens again. *)
Theorem tokenize_join_round_trip (lower : list N → list N) (s : list N) :
  lower (join (u " ") (tokenize lower s)) = join (u " ") (tokenize lower s) →
  tokenize lower (join (u " ") (tokenize lower s)) = tokenize lower s.
Proof.
  intros Hlower. unfold tokenize at 1. rewrite Hlower.
  assert (Forall (fun w => w ≠ [] ∧ Forall Derived.token_char w)
            (tokenize lower s)) as Hclean.
  { apply Forall_forall. intros w [Hne Hw]%tokenize_clean. split; [done|].
    eapply Forall_impl; [exact Hw|]. by intros c [? _]. }
  rewrite sub_class_clean.
  - apply split_join. eapply Forall_impl; [exact Hclean|].
    intros w [Hne Hw]. split; [done|].
    eapply Forall_impl; [exact Hw|]. by intros c [? _].
  - apply join_clean. eapply Forall_impl; [exact Hclean|]. by intros w [_ ?].
Qed.

Lemma tokenize_join_round_trip_witness :
  lower_basic (join (u " ") (tokenize lower_basic (u "Привет, (мир) 2024!")))
  = join (u " ") (tokenize lower_basic (u "Привет, (мир) 2024!"))
  ∧ tokenize lower_basic
      (join (u " ") (tokenize lower_basic (u "Привет, (мир) 2024!")))
    = tokenize lower_basic (u "Привет, (мир) 2024!").
Proof.
  assert (lower_basic
            (join (u " ") (tokenize lower_basic (u "Привет, (мир) 2024!")))
          = join (u " ") (tokenize lower_basic (u "Привет, (мир) 2024!")))
    as H by (vm_compute; reflexivity).
  split; [exact H|]. exact (tokenize_join_round_trip _ _ H).
Defined.

(** X10.  On a string whose lower-cased form has no percent sign,
    ampersand, parenthesis, asterisk or plus sign, the tokens are those
    obtained by putting a space for every digit, small Latin letter and
    named punctuation character and splitting on whitespace. *)
Theorem tokenize_as_listed (lower : list N → list N) (s : list N) :
  Forall (fun c => c ∉ [37; 38; 40; 41; 42; 43]%N) (lower s) →
  tokenize lower s = Spec.tokenize lower s.
Proof. apply tokenize_agrees. Qed.

Lemma tokenize_as_listed_witness :
  Forall (fun c => c ∉ [37; 38; 40; 41; 42; 43]%N)
         (lower_basic (u "Привет, как дела?"))
  ∧ tokenize lower_basic (u "Привет, как дела?")
    = Spec.tokenize lower_basic (u "Привет, как дела?").
Proof.
  assert (Forall (fun c => c ∉ [37; 38; 40; 41; 42; 43]%N)
                 (lower_basic (u "Привет, как дела?"))) as H
    by (apply (bool_decide_unpack _); vm_compute; exact I).
  split; [exact H|]. exact (tokenize_as_listed _ _ H).
Defined.

(** X11.  The lexicon that construction builds is the frequency table
    without the dropped entries, in the order of first occurrence in the
    corpus, followed by the sentinel as the last entry. *)
Theorem lexicon_shape (lower : list N → list N)
    (dict_full : gmap (list N) Z) (train_correct : list (list N)) :
  _process_training_data lower dict_full train_correct =
    Some (filter (Spec.kept dict_full) (count_corpus lower train_correct)
          ++ [([], 1%Z)]).
Proof. apply process_training_data_shape. Qed.

(** X12.  A token that occurs [c] times in the corpus is in the lexicon,
    with frequency [c], exactly when it is a word of the word list, or
    occurs at least 50 times, or has at least 4 characters and occurs at
    least 5 times. *)
Theorem lexicon_keeps_exactly (lower : list N → list N)
    (dict_full : gmap (list N) Z) (train_correct : list (list N)) :
  ∃ lexicon,
    _process_training_data lower dict_full train_correct = Some lexicon
    ∧ ∀ w c,
        PyDict.get (count_corpus lower train_correct) w = Some c →
        (PyDict.get lexicon w = Some c ↔
           is_Some (dict_full !! w) ∨ (50 ≤ c)%Z
           ∨ (4 ≤ length w ∧ (5 ≤ c)%Z))
        ∧ (PyDict.get lexicon w = None ↔
             ¬ (is_Some (dict_full !! w) ∨ (50 ≤ c)%Z
                ∨ (4 ≤ length w ∧ (5 ≤ c)%Z))).
Proof.
  destruct (process_training_data_spec lower dict_full train_correct)
    as (lexicon & Hlex & Hget).
  exists lexicon. split; [done|]. intros w c Hc.
  assert (w ≠ []) as Hne.
  { destruct (count_corpus_counted lower train_correct) as (_ & Hno & _).
    intros ->. by apply get_Some_keys in Hc. }
  rewrite (Hget w Hne) Hc.
  assert (Spec.drops dict_full w c ↔
            ¬ (is_Some (dict_full !! w) ∨ (50 ≤ c)%Z
               ∨ (4 ≤ length w ∧ (5 ≤ c)%Z))) as Hiff.
  { rewrite drops_iff -not_eq_None_Some. split.
    - intros [E HA] [Hs|HB]; [done | lia].
    - intros Hn.
      destruct (decide (dict_full !! w = None)) as [E|E]; [|exfalso; tauto].
      split; [done|].
      assert (¬ ((50 ≤ c)%Z ∨ (4 ≤ length w ∧ (5 ≤ c)%Z))) by tauto. lia. }
  destruct (decide (is_Some (dict_full !! w) ∨ (50 ≤ c)%Z
                    ∨ (4 ≤ length w ∧ (5 ≤ c)%Z))) as [Hk|Hk].
  - rewrite decide_False; [|tauto]. split; split; try done.
  - rewrite decide_True; [|tauto]. split; split; try done.
Qed.


(** X14.  When the sentinel is the only key of the lexicon, as after an
    empty corpus, every token resolves to the empty string, and the
    corrected sentence is nothing but the spaces between the tokens. *)
Theorem sentinel_only_lexicon (lower : list N → list N)
    (self : SentenceCorrector.t) (w sentence : list N) :
  PyDict.keys (train_dict self) = [[]] →
  _find_closest_word self w = Some []
  ∧ correct_sentence lower self sentence
    = Some (replicate (length (tokenize lower sentence) - 1) 32%N).
Proof.
  intros Hkeys.
  assert (train_dict self ≠ []) as Hne by (intros E; by rewrite E in Hkeys).
  assert (∀ x, _find_closest_word self x = Some []) as Hfind.
  { intros x. destruct (find_closest_word_in_keys self x Hne) as (r & -> & Hr).
    rewrite Hkeys in Hr. by apply list_elem_of_singleton in Hr as ->. }
  split; [done|]. unfold correct_sentence.
  destruct (correct_words_spec self (tokenize lower sentence) [])
    as (rs & -> & Hall).
  simpl. f_equal. rewrite -join_nils. f_equal.
  induction Hall as [|tok r toks rs Hr _ IH]; [done|].
  simpl. f_equal; [|done].
  destruct (PyDict.contains (train_dict self) tok) eqn:Hc.
  - subst r. apply contains_keys in Hc. rewrite Hkeys in Hc.
    by apply list_elem_of_singleton in Hc.
  - rewrite Hfind in Hr. by injection Hr.
Qed.

Lemma sentinel_only_lexicon_witness :
  PyDict.keys (train_dict Cases.blank) = [[]]
  ∧ __init__ lower_basic [] [] = Some Cases.blank
  ∧ _find_closest_word Cases.blank (u "кот") = Some []
  ∧ correct_sentence lower_basic Cases.blank (u "кот и пёс") = Some (u "  ").
Proof.
  assert (PyDict.keys (train_dict Cases.blank) = [[]]) as H by reflexivity.
  split_and!; [exact H | reflexivity | |].
  - exact (proj1 (sentinel_only_lexicon lower_basic Cases.blank
                    (u "кот") (u "кот и пёс") H)).
  - exact (proj2 (sentinel_only_lexicon lower_basic Cases.blank
                    (u "кот") (u "кот и пёс") H)).
Defined.

(** X15.  With the sentinel in the lexicon, a token that is not a key is
    replaced by a key that differs from it by at least one edit and by no
    more edits than the token has characters. *)
Theorem unknown_token_edit_bounds (self : SentenceCorrector.t)
    (w : list N) :
  PyDict.contains (train_dict self) [] = true →
  PyDict.contains (train_dict self) w = false →
  ∃ r, _find_closest_word self w = Some r
       ∧ r ≠ w
       ∧ 1 ≤ _levenshtein_distance self w r ≤ length w.
Proof.
  intros Hsent Hnot.
  assert (train_dict self ≠ []) as Hne by (intros E; by rewrite E in Hsent).
  destruct (find_closest_word_spec self w Hne Hnot)
    as (r & k1 & k2 & fr & Hr & Hkeys & _ & Hmin & _).
  exists r. unfold _levenshtein_distance.
  assert (r ≠ w) as Hrw.
  { intros ->. apply not_contains_keys in Hnot. apply Hnot. rewrite Hkeys.
    apply elem_of_app. right. apply list_elem_of_here. }
  split_and!; [done | done | |].
  - destruct (Levenshtein.distance w r) eqn:E; [|lia].
    by apply distance_zero in E.
  - rewrite -(distance_nil_r w). apply Hmin. by apply contains_keys.
Qed.

Lemma unknown_token_edit_bounds_witness :
  PyDict.contains (train_dict Sample.greeting) [] = true
  ∧ PyDict.contains (train_dict Sample.greeting) (u "превед") = false
  ∧ ∃ r, _find_closest_word Sample.greeting (u "превед") = Some r
         ∧ r ≠ u "превед".
Proof.
  assert (PyDict.contains (train_dict Sample.greeting) [] = true) as H1
    by reflexivity.
  assert (PyDict.contains (train_dict Sample.greeting) (u "превед") = false)
    as H2 by reflexivity.
  split_and!; [exact H1 | exact H2 |].
  destruct (unknown_token_edit_bounds Sample.greeting (u "превед") H1 H2)
    as (r & Hr & Hne & _).
  by exists r.
Defined.

(** X16.  A corrector that construction returns, given the lines of the
    word list and the strings of the training column, has the word list
    as [dict_full], the fixed sonority table, and a lexicon with no key
    twice, the sentinel at frequency 1, and no key that contains
    whitespace or a character that the pattern replaces.  On it the
    search always returns a key of the lexicon: the fallback that returns
    the token unchanged is never taken. *)
Theorem constructed_corrector (lower : list N → list N)
    (lines train_correct : list (list N)) (self : SentenceCorrector.t) :
  __init__ lower lines train_correct = Some self →
  dict_full self = _load_russian_dictionary lines
  ∧ sonority self = sonority_table
  ∧ PyDict.wf (train_dict self)
  ∧ PyDict.get (train_dict self) [] = Some 1%Z
  ∧ (∀ k c, k ∈ PyDict.keys (train_dict self) → c ∈ k →
       isspace c = false ∧ Re.class_matches noise_class c = false)
  ∧ (∀ w, ∃ r, _find_closest_word self w = Some r
               ∧ r ∈ PyDict.keys (train_dict self)).
Proof.
  rewrite init_shape. intros [= <-]. simpl.
  destruct (count_corpus_counted lower train_correct) as (Hwf & Hno & _).
  set (kept := filter _ _).
  assert (([] : list N) ∉ PyDict.keys kept) as Hno'.
  { intros Hin. by apply keys_filter_subseteq in Hin. }
  split_and!; try done.
  - rewrite -(set_absent kept [] 1%Z) //. by apply wf_set, wf_filter.
  - rewrite get_app_notin //.
  - intros k c Hk Hc. unfold PyDict.keys in Hk. rewrite fmap_app in Hk.
    apply elem_of_app in Hk as [Hk|Hk].
    + apply keys_filter_subseteq in Hk. rewrite count_corpus_keys in Hk.
      assert (k ∈ Derived.corpus_tokens lower train_correct) as Hin.
      { clear -Hk. revert Hk.
        generalize (Derived.corpus_tokens lower train_correct) as ws.
        generalize ([] : list (list N)) as seen.
        intros seen ws. revert seen.
        induction ws as [|w ws IH]; intros seen; simpl.
        - by intros ?%elem_of_nil.
        - destruct (bool_decide (w ∈ seen)).
          + intros H%IH. by apply list_elem_of_further.
          + intros [->|H%IH]%elem_of_cons; [apply list_elem_of_here|].
            by apply list_elem_of_further. }
      apply corpus_tokens_clean in Hin as [_ Hall].
      rewrite Forall_forall in Hall. by apply Hall.
    + apply list_elem_of_singleton in Hk. simpl in Hk. subst k.
      by apply elem_of_nil in Hc.
  - intros w. apply find_closest_word_in_keys. simpl. by destruct kept.
Qed.

Lemma constructed_corrector_witness :
  __init__ lower_basic [] (replicate 5 (u "привет")) = Some Sample.greeting
  ∧ PyDict.get (train_dict Sample.greeting) [] = Some 1%Z
  ∧ ∀ w, ∃ r, _find_closest_word Sample.greeting w = Some r
              ∧ r ∈ PyDict.keys (train_dict Sample.greeting).
Proof.
  assert (__init__ lower_basic [] (replicate 5 (u "привет"))
          = Some Sample.greeting) as H by (vm_compute; reflexivity).
  split; [exact H|].
  destruct (constructed_corrector lower_basic [] (replicate 5 (u "привет"))
              Sample.greeting H) as (_ & _ & _ & Hget & _ & Hfind).
  split; [exact Hget | exact Hfind].
Defined.

(** X17.  With a lexicon that is not empty, the corrected sentence has one
    word for each token of the sentence, and every one of its words is a
    key of the lexicon. *)
Theorem corrected_words_are_keys (lower : list N → list N)
    (self : SentenceCorrector.t) (sentence : list N) :
  train_dict self ≠ [] →
  ∃ rs, correct_sentence lower self sentence = Some (join (u " ") rs)
        ∧ length rs = length (tokenize lower sentence)
        ∧ Forall (fun r => r ∈ PyDict.keys (train_dict self)) rs.
Proof.
  intros Hne. unfold correct_sentence.
  destruct (correct_words_spec self (tokenize lower sentence) [])
    as (rs & Hrs & Hall).
  exists rs. rewrite Hrs /=. split_and!; [done | |].
  - symmetry. by eapply Forall2_length.
  - clear Hrs.
    induction Hall as [|tok r toks rs' Hr _ IH]; [constructor|].
    constructor; [|done].
    destruct (PyDict.contains (train_dict self) tok) eqn:Hc.
    + subst r. by apply contains_keys.
    + destruct (find_closest_word_in_keys self tok Hne) as (r' & Hr' & Hin).
      congruence.
Qed.

Lemma corrected_words_are_keys_witness :
  train_dict Sample.good_bad ≠ []
  ∧ ∃ rs, correct_sentence lower_basic Sample.good_bad (u "всё харашо")
          = Some (join (u " ") rs)
          ∧ length rs = 2.
Proof.
  assert (train_dict Sample.good_bad ≠ []) as H by done.
  split; [exact H|].
  destruct (corrected_words_are_keys lower_basic Sample.good_bad
              (u "всё харашо") H) as (rs & Hrs & Hlen & _).
  exists rs. split; [exact Hrs | exact Hlen].
Defined.

(** X18.  A sentence whose tokens are all keys of the lexicon comes back
    as its tokens joined by single spaces: lower-cased and without the
    replaced characters, otherwise unchanged. *)
Theorem known_sentence_kept (lower : list N → list N)
    (self : SentenceCorrector.t) (sentence : list N) :
  Forall (fun tok => PyDict.contains (train_dict self) tok = true)
         (tokenize lower sentence) →
  correct_sentence lower self sentence
  = Some (join (u " ") (tokenize lower sentence)).
Proof.
  intros Hkeys. unfold correct_sentence.
  destruct (correct_words_spec self (tokenize lower sentence) [])
    as (rs & -> & Hall).
  simpl. do 2 f_equal. revert Hkeys.
  induction Hall as [|tok r toks rs' Hr _ IH]; [done|].
  intros [Hc Hrest]%Forall_cons. rewrite Hc in Hr. subst r.
  f_equal. by apply IH.
Qed.

Lemma known_sentence_kept_witness :
  Forall (fun tok => PyDict.contains (train_dict Sample.small_talk) tok = true)
         (tokenize lower_basic (u "Привет, как дела?"))
  ∧ correct_sentence lower_basic Sample.small_talk (u "Привет, как дела?")
    = Some (u "привет как дела").
Proof.
  assert (Forall (fun tok =>
                    PyDict.contains (train_dict Sample.small_talk) tok = true)
                 (tokenize lower_basic (u "Привет, как дела?"))) as H
    by (repeat constructor).
  split; [exact H|].
  exact (known_sentence_kept lower_basic Sample.small_talk _ H).
Defined.

(** X19.  A sentence whose lower-cased form has only whitespace and
    characters that the pattern replaces has no token, and its correction
    is the empty string, whatever the lexicon. *)
Theorem noise_only_sentence (lower : list N → list N)
    (self : SentenceCorrector.t) (sentence : list N) :
  Forall (fun c => isspace c = true
                   ∨ Re.class_matches noise_class c = true)
         (lower sentence) →
  tokenize lower sentence = []
  ∧ correct_sentence lower self sentence = Some [].
Proof.
  intros Hnoise.
  assert (tokenize lower sentence = []) as Htok.
  { unfold tokenize, split. by apply split_from_spaces, sub_class_noise. }
  split; [done|]. unfold correct_sentence. by rewrite Htok.
Qed.

Lemma noise_only_sentence_witness :
  Forall (fun c => isspace c = true
                   ∨ Re.class_matches noise_class c = true)
         (lower_basic (u "Hello, World 42!"))
  ∧ correct_sentence lower_basic Sample.good_bad (u "Hello, World 42!")
    = Some [].
Proof.
  assert (Forall (fun c => isspace c = true
                           ∨ Re.class_matches noise_class c = true)
                 (lower_basic (u "Hello, World 42!"))) as H
    by (apply (bool_decide_unpack _); vm_compute; exact I).
  split; [exact H|].
  exact (proj2 (noise_only_sentence lower_basic Sample.good_bad _ H)).
Defined.

(** X20.  The distance that [_levenshtein_distance] returns is the edit
    distance: some script of that many insertions, deletions and
    substitutions turns the first word into the second, and no script
    does it with fewer. *)
Theorem distance_is_edit_distance (self : SentenceCorrector.t)
    (word1 word2 : list N) :
  Levenshtein.edits word1 word2 (_levenshtein_distance self word1 word2)
  ∧ ∀ n, Levenshtein.edits word1 word2 n →
         _levenshtein_distance self word1 word2 ≤ n.
Proof.
  unfold _levenshtein_distance. split.
  - apply distance_achieved.
  - intros n. apply distance_minimal.
Qed.

(** X21.  The distance does not depend on the order of the two words, is
    0 only between equal words, and from the empty word is the length of
    the other word. *)
Theorem distance_basic_laws (self : SentenceCorrector.t)
    (word1 word2 : list N) :
  _levenshtein_distance self word1 word2
  = _levenshtein_distance self word2 word1
  ∧ (_levenshtein_distance self word1 word2 = 0 ↔ word1 = word2)
  ∧ _levenshtein_distance self word1 [] = length word1
  ∧ _levenshtein_distance self [] word2 = length word2.
Proof.
  unfold _levenshtein_distance. split_and!.
  - apply distance_sym.
  - apply distance_zero.
  - apply distance_nil_r.
  - apply distance_nil_l.
Qed.

(** X22.  When [--text] is given and not empty, [main] prints the text
    and its correction, two lines, and returns; it does so whether or not
    [--interactive] is set, and it reads no input. *)
Theorem main_text_mode (lower : list N → list N)
    (lines train_correct : list (list N)) (a : Main.args)
    (inputs : list Main.event) (t : list N) :
  Main.text a = Some t → t ≠ [] →
  ∃ corrector corrected,
    __init__ lower lines train_correct = Some corrector
    ∧ correct_sentence lower corrector t = Some corrected
    ∧ Main.main lower lines train_correct a inputs
      = Some ([Main.Print (Main.original_label ++ t);
               Main.Print (Main.corrected_label ++ corrected)],
              Main.Returned).
Proof.
  intros Ht Hne. unfold Main.main. rewrite init_shape Ht /=.
  eexists _, _. split; [done|].
  rewrite (correct_sentence_total lower _ t). split; [done|].
  destruct t as [|c t]; [done|]. simpl. by rewrite correct_sentence_total.
Qed.

Lemma main_text_mode_witness :
  Main.text Cases.text_args = Some (u "Привет мир")
  ∧ u "Привет мир" ≠ []
  ∧ Main.main lower_basic [] [u "привет"] Cases.text_args [Main.Interrupt]
    = Some ([Main.Print (u "Исходное предложение: Привет мир");
             Main.Print (u "Исправленное предложение:  ")],
            Main.Returned).
Proof.
  assert (Main.text Cases.text_args = Some (u "Привет мир")) as H1
    by reflexivity.
  assert (u "Привет мир" ≠ []) as H2 by done.
  split_and!; [exact H1 | exact H2 |].
  destruct (main_text_mode lower_basic [] [u "привет"] Cases.text_args
              [Main.Interrupt] (u "Привет мир") H1 H2)
    as (corrector & corrected & Hinit & Hcorr & Hmain).
  rewrite Hmain. vm_compute in Hinit. injection Hinit as <-.
  vm_compute in Hcorr. injection Hcorr as <-. reflexivity.
Defined.

(** X23.  In interactive mode, without a text, [main] prints the banner
    and then, for every line until the first exit word, a prompt and,
    unless the line is blank, the corrected line.  It returns at the first
    line whose lower-case form is an exit word, reading nothing after it;
    at an interrupt it prints the farewell and returns; when the input
    ends first, the [EOFError] of [input] is not caught. *)
Theorem main_interactive_transcript (lower : list N → list N)
    (lines train_correct : list (list N)) (a : Main.args)
    (texts : list (list N)) :
  Main.truthy (default [] (Main.text a)) = false →
  Main.interactive a = true →
  Forall (fun t => ¬ Derived.exit_word lower t) texts →
  ∃ corrector,
    __init__ lower lines train_correct = Some corrector
    ∧ (∀ stop rest, Derived.exit_word lower stop →
         Main.main lower lines train_correct a
           ((Main.Line <$> texts) ++ Main.Line stop :: rest)
         = Some (Main.Print Main.banner
                   :: (texts ≫= Derived.line_output lower corrector)
                   ++ [Main.Prompt (u "> ")],
                 Main.Returned))
    ∧ (∀ rest,
         Main.main lower lines train_correct a
           ((Main.Line <$> texts) ++ Main.Interrupt :: rest)
         = Some (Main.Print Main.banner
                   :: (texts ≫= Derived.line_output lower corrector)
                   ++ [Main.Prompt (u "> "); Main.Print Main.goodbye],
                 Main.Returned))
    ∧ Main.main lower lines train_correct a (Main.Line <$> texts)
      = Some (Main.Print Main.banner
                :: (texts ≫= Derived.line_output lower corrector)
                ++ [Main.Prompt (u "> ")],
              Main.EOFError).
Proof.
  intros Htext Hint Htexts. unfold Main.main.
  rewrite init_shape Htext Hint /=. eexists. split; [done|]. split_and!.
  - intros stop rest Hstop.
    rewrite interactive_loop_lines //=.
    rewrite bool_decide_eq_true_2 //.
    unfold Derived.exit_word in Hstop.
    rewrite !elem_of_cons elem_of_nil. tauto.
  - intros rest. rewrite interactive_loop_lines //=.
  - rewrite -(app_nil_r (Main.Line <$> texts)).
    rewrite interactive_loop_lines //=.
Qed.

Lemma main_interactive_transcript_witness :
  Main.truthy (default [] (Main.text Cases.interactive_args)) = false
  ∧ Main.interactive Cases.interactive_args = true
  ∧ Forall (fun t => ¬ Derived.exit_word lower_basic t)
           [u "превед"; u "  "; u " exit"]
  ∧ Main.main lower_basic [] (replicate 5 (u "привет"))
      Cases.interactive_args
      [Main.Line (u "превед"); Main.Line (u "  "); Main.Line (u " exit");
       Main.Line (u "EXIT"); Main.Line (u "привет")]
    = Some ([Main.Print Main.banner;
             Main.Prompt (u "> ");
             Main.Print (u "Исправленное предложение: привет");
             Main.Prompt (u "> ");
             Main.Prompt (u "> ");
             Main.Print (u "Исправленное предложение: ");
             Main.Prompt (u "> ")],
            Main.Returned).
Proof.
  assert (Main.truthy (default [] (Main.text Cases.interactive_args)) = false)
    as H1 by reflexivity.
  assert (Main.interactive Cases.interactive_args = true) as H2
    by reflexivity.
  assert (Forall (fun t => ¬ Derived.exit_word lower_basic t)
                 [u "превед"; u "  "; u " exit"]) as H3.
  { repeat constructor; intros [H|H]; vm_compute in H; discriminate H. }
  split_and!; [exact H1 | exact H2 | exact H3 |].
  destruct (main_interactive_transcript lower_basic []
              (replicate 5 (u "привет")) Cases.interactive_args
              [u "превед"; u "  "; u " exit"] H1 H2 H3)
    as (corrector & Hinit & Hstop & _).
  assert (Derived.exit_word lower_basic (u "EXIT")) as Hexit
    by (right; reflexivity).
  rewrite (Hstop (u "EXIT") [Main.Line (u "привет")] Hexit).
  vm_compute in Hinit. injection Hinit as <-. vm_compute. reflexivity.
Defined.

End Extras.
